(** * Year-range statistics of the stability charts (static/js/function1.js)

    A shallow embedding of the helpers of [function1.js]:
    [sliceByYearRange], [mean], [stdDev], [computeStabilityFromLineDatasets]
    and [applyRange].

    JavaScript numbers are IEEE-754 binary64 values: they are modelled by
    Rocq's primitive floats, whose operations are specified bit by bit in
    [SpecFloat] and linked to the primitives in [FloatAxioms].

    The definitions come first: notions on binary64 numbers, the program,
    and the notions of the specification.  Then come the facts about
    binary64 arithmetic that the development needs (signs of results, the
    order, the sign of a difference, results that are numbers), and last
    the properties of the program. *)

From Stdlib Require Import Ascii String ZArith Bool List Lia Uint63 Floats.
From Stdlib Require Import Permutation Sorted.
Import ListNotations.

#[local] Set Warnings "-inexact-float".

(* ================================================================== *)
(** * Binary64 numbers *)
(* ================================================================== *)

Module Binary64.

#[local] Open Scope Z_scope.

Abbreviation emin := (SpecFloat.emin prec emax).
Abbreviation fexp := (SpecFloat.fexp prec emax).

(** The numbers that are neither NaN nor infinite. *)
Definition SFfinite (x : spec_float) : bool :=
  match x with
  | S754_zero _ | S754_finite _ _ _ => true
  | _ => false
  end.

(** The value of a finite number as an integer multiple of the smallest
    positive binary64 number [2 ^ emin]; both zeros have value [0]. *)
Definition SF2Z (x : spec_float) : Z :=
  match x with
  | S754_finite s m e => cond_Zopp s (Zpos m * 2 ^ (e - emin))
  | _ => 0
  end.

(** The sign bit of a number that has one. *)
Definition SFsign (x : spec_float) : option bool :=
  match x with
  | S754_zero s | S754_infinity s | S754_finite s _ _ => Some s
  | S754_nan => None
  end.

(** The sign given to [binary_round_aux] is the sign of whatever it returns. *)
Inductive signed_as (s : bool) : spec_float -> Prop :=
  | sa_zero : signed_as s (S754_zero s)
  | sa_infinity : signed_as s (S754_infinity s)
  | sa_finite m e : signed_as s (S754_finite s m e)
  | sa_nan : signed_as s S754_nan.

(** A non-zero number of the given sign. *)
Inductive nonzero_as (s : bool) : spec_float -> Prop :=
  | nz_infinity : nonzero_as s (S754_infinity s)
  | nz_finite m e : nonzero_as s (S754_finite s m e).

(** A number that is not negative: NaN, a zero, or positive. *)
Definition SFnonneg_or_nan (x : spec_float) : Prop :=
  x = S754_nan \/ (exists s, x = S754_zero s) \/ nonzero_as false x.

(** A number that is not NaN. *)
Definition SFnot_nan (x : spec_float) : bool :=
  match x with
  | S754_nan => false
  | _ => true
  end.

(** A number with a clear sign bit: [+0], a positive number or
    [+infinity]. *)
Definition SFnonneg (x : spec_float) : bool :=
  match x with
  | S754_zero false | S754_infinity false | S754_finite false _ _ => true
  | _ => false
  end.

(** A positive number that is not infinite. *)
Definition SFpositive_finite (x : spec_float) : bool :=
  match x with
  | S754_finite false _ _ => true
  | _ => false
  end.

(** The integer value of a finite primitive float, in units of [2 ^ emin]. *)
Definition fkey (x : float) : Z := SF2Z (Prim2SF x).

End Binary64.

(* ================================================================== *)
(** * The program *)
(* ================================================================== *)

#[local] Open Scope float_scope.

(** ** Values and arrays *)

(** The values a data array of the page can hold.  [FUNCTION1_DATA] comes
    from JSON-like data: numbers and [null] are expected, the other kinds
    are what [typeof v === "number"] guards against. *)
Inductive value : Type :=
  | VNumber (x : float)
  | VNull
  | VUndefined
  | VBoolean (b : bool)
  | VString (s : string).

(** [Number.isNaN] and [Number.isFinite] on a number. *)
Definition isNaN (x : float) : bool := is_nan x.
Definition isFinite (x : float) : bool := is_finite x.

(** A [length] read as a number.  Array lengths are below [2 ^ 32], where
    the conversion from an integer is exact. *)
Definition number_of_nat (n : nat) : float := of_uint63 (Uint63.of_Z (Z.of_nat n)).

(** [ToNumber] of a value that is a number or [null]: [null] converts to
    [+0]. *)
Definition to_number (v : option float) : float :=
  match v with
  | Some x => x
  | None => 0
  end.

(** [x ** 2] on binary64: the product [x * x], which is what the
    exponent 2 computes (fdlibm's [pow], used by V8, returns [x * x] for
    it). *)
Definition square (x : float) : float := x * x.

(** [years.indexOf(y)]: the first index whose element is strictly equal to
    [y], or [-1].  Strict equality on numbers is IEEE equality: NaN equals
    nothing and the two zeros are equal. *)
Fixpoint indexOf_from (years : list float) (y : float) (i : Z) : Z :=
  match years with
  | [] => (-1)%Z
  | x :: rest => if x =? y then i else indexOf_from rest y (i + 1)%Z
  end.

Definition indexOf (years : list float) (y : float) : Z := indexOf_from years y 0.

(** [arr.slice(start, end)], with the clamping of [Array.prototype.slice]. *)
Definition slice {A : Type} (arr : list A) (first last : Z) : list A :=
  let len := Z.of_nat (length arr) in
  let k := if (first <? 0)%Z then Z.max (len + first) 0 else Z.min first len in
  let final := if (last <? 0)%Z then Z.max (len + last) 0 else Z.min last len in
  firstn (Z.to_nat (final - k)) (skipn (Z.to_nat k) arr).

(** [arr.sort(comparefn)] for a consistent comparison function: the sort is
    stable, and [comparefn a b > 0] puts [a] after [b].  Elements are
    inserted from the right, each in front of the sorted rest and moved
    past the elements that must precede it. *)
Section Sort.
Context {A : Type} (comparefn : A -> A -> float).

Fixpoint insert (a : A) (sorted : list A) : list A :=
  match sorted with
  | [] => [a]
  | b :: rest =>
      if 0 <? comparefn a b then b :: insert a rest else a :: b :: rest
  end.

Definition sort (arr : list A) : list A := fold_right insert [] arr.
End Sort.

(** ** Helpers of function1.js *)

(** [sliceByYearRange(years, fromYear, toYear)]; [None] is [null]. *)
Definition sliceByYearRange (years : list float) (fromYear toYear : float)
  : option (Z * Z) :=
  let fromIdx := indexOf years fromYear in
  let toIdx := indexOf years toYear in
  if (fromIdx =? -1)%Z || (toIdx =? -1)%Z || (fromIdx >? toIdx)%Z then None
  else Some (fromIdx, toIdx).

(** [arr.filter(v => typeof v === "number" && !Number.isNaN(v))].  Every
    entry kept is a number, so the filtered array is a list of floats. *)
Fixpoint valid_numbers (arr : list value) : list float :=
  match arr with
  | [] => []
  | VNumber x :: rest =>
      if negb (isNaN x) then x :: valid_numbers rest else valid_numbers rest
  | _ :: rest => valid_numbers rest
  end.

(** [mean(arr)]; [None] is [null]. *)
Definition mean (arr : list value) : option float :=
  let vals := valid_numbers arr in
  if Nat.eqb (length vals) 0 then None
  else Some (fold_left (fun a b => a + b) vals 0 / number_of_nat (length vals)).

(** [stdDev(arr)]: the sample standard deviation.  [mean] is called on the
    filtered array and filters it again. *)
Definition stdDev (arr : list value) : option float :=
  let vals := valid_numbers arr in
  if Nat.ltb (length vals) 2 then None
  else
    let m := mean (map VNumber vals) in
    let variance :=
      fold_left (fun acc v => acc + square (v - to_number m)) vals 0
      / number_of_nat (length vals - 1) in
    Some (sqrt variance).

(** A line dataset [{label, data: [...]}]. *)
Record Dataset : Type := { label : string; data : list value }.

(** The statistics of a group [{group, mean, std, stability}]; [None] is
    [null]. *)
Record GroupStats : Type := {
  r_group : string;
  r_mean : option float;
  r_std : option float;
  r_stability : option float
}.

(** The result [{stats, ranked}]. *)
Record Stability : Type := { stats : list GroupStats; ranked : list GroupStats }.

(** The statistics of one dataset (the callback of [datasets.map]). *)
Definition groupStats (ds : Dataset) : GroupStats :=
  let m := mean (data ds) in
  let s := stdDev (data ds) in
  let idx :=
    match m, s with
    | Some mv, Some sv => if negb (sv =? 0) then Some (mv / sv) else None
    | _, _ => None
    end in
  {| r_group := label ds; r_mean := m; r_std := s; r_stability := idx |}.

(** The filter of [ranked]:
    [r.stability !== null && !Number.isNaN(r.stability)
     && Number.isFinite(r.stability)]. *)
Definition rankable (r : GroupStats) : bool :=
  match r_stability r with
  | Some x => negb (isNaN x) && isFinite x
  | None => false
  end.

(** The comparison function [(a, b) => b.stability - a.stability]. *)
Definition byStability (a b : GroupStats) : float :=
  to_number (r_stability b) - to_number (r_stability a).

Definition computeStabilityFromLineDatasets
    (years : list float) (datasets : list Dataset) : Stability :=
  let stats := map groupStats datasets in
  let ranked := sort byStability (filter rankable stats) in
  {| stats := stats; ranked := ranked |}.

(** ** The charts and [applyRange] *)

(** Reading a property of [null] throws. *)
Inductive error : Type := TypeError.

(** How a call ends: with a value, or by throwing. *)
Inductive completion (A : Type) : Type :=
  | Normal (a : A)
  | Throw (e : error).

Arguments Normal {A} a.
Arguments Throw {A} e.

Definition bind {A B : Type} (c : completion A) (k : A -> completion B)
  : completion B :=
  match c with
  | Normal a => k a
  | Throw e => Throw e
  end.

Notation "x <- c ;; k" := (bind c (fun x => k))
  (at level 61, c at next level, right associativity).

(** [arr.map(f)] for a callback that may throw. *)
Fixpoint mapM {A B : Type} (f : A -> completion B) (arr : list A)
  : completion (list B) :=
  match arr with
  | [] => Normal []
  | a :: rest => b <- f a ;; bs <- mapM f rest ;; Normal (b :: bs)
  end.

(** A point [{label, x, y}] of the scatter chart. *)
Record ScatterPoint : Type := { p_label : string; p_x : float; p_y : float }.

(** A dataset of the line chart. *)
Record LineDataset : Type := {
  l_label : string;
  l_data : list value;
  spanGaps : bool;
  tension : float;
  pointRadius : float
}.

(** What the three charts show, and how often each was redrawn
    ([chart.update()]). *)
Record Charts : Type := {
  barLabels : list string;
  barData : list float;
  barUpdates : nat;
  scatterData : list ScatterPoint;
  scatterUpdates : nat;
  lineLabels : list float;
  lineDatasets : list LineDataset;
  lineUpdates : nat
}.

Section ApplyRange.
(** [Number(x.toFixed(3))] on a number: decimal formatting and parsing
    are not modelled. *)
Variable round3 : float -> float.

(** The full-range data of the page. *)
Variable yearsAll : list float.
Variable lineDatasetsAll : list Dataset.

(** [Number(v.toFixed(3))] where [v] may be [null]. *)
Definition toFixed3 (v : option float) : completion float :=
  match v with
  | Some x => Normal (round3 x)
  | None => Throw TypeError
  end.

(** The line datasets cut to the selected range. *)
Definition lineFiltered (fromIdx toIdx : Z) : list Dataset :=
  map (fun ds => {| label := label ds;
                    data := slice (data ds) fromIdx (toIdx + 1) |})
      lineDatasetsAll.

Definition scatterPoint (r : GroupStats) : completion ScatterPoint :=
  x <- toFixed3 (r_mean r) ;;
  y <- toFixed3 (r_std r) ;;
  Normal {| p_label := r_group r; p_x := x; p_y := y |}.

Definition hasMeanAndStd (r : GroupStats) : bool :=
  match r_mean r, r_std r with
  | Some _, Some _ => true
  | _, _ => false
  end.

Definition lineDataset (ds : Dataset) : LineDataset :=
  {| l_label := label ds; l_data := data ds;
     spanGaps := false; tension := 0.25; pointRadius := 3 |}.

(** [applyRange(fromY, toY)] on the charts [c]; [fromYear] and [toYear]
    are [Number(fromY)] and [Number(toY)]. *)
Definition applyRange (c : Charts) (fromYear toYear : float)
  : completion Charts :=
  match sliceByYearRange yearsAll fromYear toYear with
  | None => Normal c
  | Some (fromIdx, toIdx) =>
      let yearsFiltered := slice yearsAll fromIdx (toIdx + 1) in
      let filtered := lineFiltered fromIdx toIdx in
      let result := computeStabilityFromLineDatasets yearsFiltered filtered in
      values <- mapM (fun r => toFixed3 (r_stability r)) (ranked result) ;;
      points <- mapM scatterPoint (filter hasMeanAndStd (stats result)) ;;
      Normal {| barLabels := map r_group (ranked result);
                barData := values;
                barUpdates := S (barUpdates c);
                scatterData := points;
                scatterUpdates := S (scatterUpdates c);
                lineLabels := yearsFiltered;
                lineDatasets := map lineDataset filtered;
                lineUpdates := S (lineUpdates c) |}
  end.
End ApplyRange.

(* ================================================================== *)
(** * The specification's notions *)
(* ================================================================== *)

Module Spec.

(** A valid numeric entry: a number that is not NaN. *)
Definition valid_entry (v : value) : bool :=
  match v with
  | VNumber x => negb (is_nan x)
  | _ => false
  end.

(** The valid numeric entries of a series, in order. *)
Definition entries (series : list value) : list float :=
  flat_map (fun v => match v with VNumber x => [x] | _ => [] end)
           (filter valid_entry series).

(** The sum of a list of numbers, taken from left to right. *)
Definition total (xs : list float) : float := fold_left PrimFloat.add xs 0.

(** The arithmetic mean: the sum over the count. *)
Definition arithmetic_mean (xs : list float) : float :=
  total xs / number_of_nat (length xs).

(** The Bessel-corrected sample standard deviation: the square root of the
    sum of the squared deviations from the mean over [n - 1]. *)
Definition sample_std (xs : list float) : float :=
  sqrt (total (map (fun x => square (x - arithmetic_mean xs)) xs)
        / number_of_nat (length xs - 1)).

(** [computeStats(valueSeries)]: the mean is [None] without valid entries,
    the standard deviation is [None] with fewer than two. *)
Definition computeStats_mean (series : list value) : option float :=
  match entries series with
  | [] => None
  | xs => Some (arithmetic_mean xs)
  end.

Definition computeStats_std (series : list value) : option float :=
  let xs := entries series in
  if Nat.ltb (length xs) 2 then None else Some (sample_std xs).

(** [n] is the first index at which [y] is found in [years]. *)
Definition first_at (years : list float) (y : float) (n : nat) : Prop :=
  (exists x, nth_error years n = Some x /\ (x =? y) = true)
  /\ forall j x, (j < n)%nat -> nth_error years j = Some x -> (x =? y) = false.

(** [i] is the position of [y] in [years]: the element at [i] equals [y]
    and no earlier one does. *)
Definition position (years : list float) (y : float) (i : Z) : Prop :=
  (0 <= i)%Z
  /\ (exists x, nth_error years (Z.to_nat i) = Some x /\ (x =? y) = true)
  /\ forall j x, (j < Z.to_nat i)%nat -> nth_error years j = Some x ->
                 (x =? y) = false.

(** [y] is absent from [years]. *)
Definition absent (years : list float) (y : float) : Prop :=
  Forall (fun x => (x =? y) = false) years.

(** The stability of a group read as a number. *)
Definition stability_of (r : GroupStats) : float := to_number (r_stability r).

(** Descending order of stability. *)
Definition descending (a b : GroupStats) : Prop :=
  (stability_of b <=? stability_of a) = true.

(** The entries of a list whose stability equals [v], in order. *)
Definition tied_at (v : float) (rs : list GroupStats) : list GroupStats :=
  filter (fun r => stability_of r =? v) rs.

(** A stability that is non-null, not NaN and finite. *)
Definition finite_stability (r : GroupStats) : Prop :=
  exists x, r_stability r = Some x /\ isNaN x = false /\ isFinite x = true.

(** The data model's reading of a null stability: null exactly when the
    standard deviation is null, zero, NaN or infinite. *)
Definition null_iff_std_degenerate (r : GroupStats) : Prop :=
  r_stability r = None
  <-> (r_std r = None
       \/ exists s, r_std r = Some s
                    /\ ((s =? 0) = true \/ is_nan s = true
                        \/ is_infinity s = true)).

(** Two numbers on the same side of zero: both positive, both negative, or
    both zero. *)
Definition same_sign (x y : float) : Prop :=
  (0 <? x) = (0 <? y) /\ (x <? 0) = (y <? 0).

(** A standard deviation that is never below zero, and a finite stability
    on the same side of zero as the mean. *)
Definition std_nonneg_stability_signed (ds : Dataset) : Prop :=
  (forall s, stdDev (data ds) = Some s -> (0 <=? s) = true)
  /\ (forall q m,
         r_stability (groupStats ds) = Some q ->
         isNaN q = false -> isFinite q = true ->
         r_mean (groupStats ds) = Some m -> same_sign q m).

End Spec.

(** The charts after [applyRange] with the valid range [fromIdx..toIdx]:
    every view is replaced and redrawn once. *)
Definition chartsFor (round3 : float -> float) (yearsAll : list float)
    (lineDatasetsAll : list Dataset) (c : Charts) (fromIdx toIdx : Z) : Charts :=
  let yearsFiltered := slice yearsAll fromIdx (toIdx + 1) in
  let filtered := lineFiltered lineDatasetsAll fromIdx toIdx in
  let result := computeStabilityFromLineDatasets yearsFiltered filtered in
  {| barLabels := map r_group (ranked result);
     barData := map (fun r => round3 (Spec.stability_of r)) (ranked result);
     barUpdates := S (barUpdates c);
     scatterData :=
       map (fun r => {| p_label := r_group r;
                        p_x := round3 (to_number (r_mean r));
                        p_y := round3 (to_number (r_std r)) |})
           (filter hasMeanAndStd (stats result));
     scatterUpdates := S (scatterUpdates c);
     lineLabels := yearsFiltered;
     lineDatasets := map lineDataset filtered;
     lineUpdates := S (lineUpdates c) |}.

(* ================================================================== *)
(** * The other code of the page scripts *)
(* ================================================================== *)

(** ** Views of the stability page *)

(** What the three charts show, without the redraw counters. *)
Definition views (c : Charts)
  : list string * list float * list ScatterPoint * list float
    * list LineDataset :=
  (barLabels c, barData c, scatterData c, lineLabels c, lineDatasets c).

(** Years that are numbers other than NaN and pairwise different under
    [===], as the years of a page are. *)
Definition unique_years (years : list float) : Prop :=
  Forall (fun y => isNaN y = false) years
  /\ forall i j x y,
       nth_error years i = Some x -> nth_error years j = Some y ->
       (x =? y) = true -> i = j.

(** ** [average] (the salary chart, function1.js) *)

(** [average(arr)] on an array of numbers and [null]s: nothing is
    filtered, and [a + null] is [a + 0]. *)
Definition average (arr : list (option float)) : float :=
  fold_left (fun a b => a + to_number b) arr 0 / number_of_nat (length arr).

(** ** The ROI chart and request (function3.js) *)

(** A row [{university, avg_ft_employment_rate, avg_median_salary,
    roi_score}] of the results. *)
Record Row : Type := {
  university : value;
  avg_ft_employment_rate : value;
  avg_median_salary : value;
  roi_score : value
}.

(** The calls [renderChart] makes on charts: [new Chart(ctx, {...})] with
    the labels and the data of its one dataset, and [chart.destroy()].
    A chart is named by the number of charts made before it. *)
Inductive ChartEvent : Type :=
  | NewChart (id : nat) (labels data : list value)
  | DestroyChart (id : nat).

(** The global [roiChart] ([None] is [null]), the calls made so far, oldest
    first, and the number of charts made. *)
Record RoiPage : Type := {
  roiChart : option nat;
  chartEvents : list ChartEvent;
  chartsMade : nat
}.

(** The page before any chart is made: [let roiChart = null]. *)
Definition startPage : RoiPage :=
  {| roiChart := None; chartEvents := []; chartsMade := 0 |}.

(** [renderChart(results)], the constructor and [destroy] completing
    normally. *)
Definition renderChart (results : list Row) (p : RoiPage) : RoiPage :=
  let labels := map university results in
  let roiScores := map roi_score results in
  let events :=
    match roiChart p with
    | Some old => chartEvents p ++ [DestroyChart old]
    | None => chartEvents p
    end in
  {| roiChart := Some (chartsMade p);
     chartEvents := events ++ [NewChart (chartsMade p) labels roiScores];
     chartsMade := S (chartsMade p) |}.

(** One call on the canvas, given the chart that is live on it: a chart is
    made only on a free canvas, and only the live chart is destroyed;
    [None] when the call breaks this. *)
Definition canvasStep (live : option (option nat)) (e : ChartEvent)
  : option (option nat) :=
  match live, e with
  | Some None, NewChart id _ _ => Some (Some id)
  | Some (Some id), DestroyChart id' =>
      if Nat.eqb id id' then Some None else None
  | _, _ => None
  end.

(** The chart left live on the canvas by a sequence of calls, or [None]
    when some call was made on a canvas in the wrong state. *)
Definition canvasAfter (events : list ChartEvent) : option (option nat) :=
  fold_left canvasStep events (Some None).



(* ================================================================== *)
(** * Facts about binary64 arithmetic *)
(* ================================================================== *)

Module Binary64Facts.

Import Binary64.

#[local] Open Scope Z_scope.

(** ** Number of binary digits *)

Lemma digits2_pos_succ_xO (p : positive) :
  Zpos (digits2_pos p~0) = Zpos (digits2_pos p) + 1.
Proof. simpl. lia. Qed.

Lemma digits2_pos_succ_xI (p : positive) :
  Zpos (digits2_pos p~1) = Zpos (digits2_pos p) + 1.
Proof. simpl. lia. Qed.

Lemma digits2_pos_bounds (p : positive) :
  2 ^ (Zpos (digits2_pos p) - 1) <= Zpos p < 2 ^ Zpos (digits2_pos p).
Proof.
  induction p as [p IH | p IH | ].
  - rewrite digits2_pos_succ_xI.
    replace (Zpos (digits2_pos p) + 1 - 1) with (Z.succ (Zpos (digits2_pos p) - 1)) by lia.
    replace (Zpos (digits2_pos p) + 1) with (Z.succ (Zpos (digits2_pos p))) by lia.
    rewrite !Z.pow_succ_r by lia. lia.
  - rewrite digits2_pos_succ_xO.
    replace (Zpos (digits2_pos p) + 1 - 1) with (Z.succ (Zpos (digits2_pos p) - 1)) by lia.
    replace (Zpos (digits2_pos p) + 1) with (Z.succ (Zpos (digits2_pos p))) by lia.
    rewrite !Z.pow_succ_r by lia. lia.
  - simpl. lia.
Qed.

(** ** Right shifts keep a mantissa positive while digits remain *)

Lemma shr_1_digits (r : shr_record) (p : positive) :
  shr_m r = Zpos p -> 1 < Zpos (digits2_pos p) ->
  exists q, shr_m (shr_1 r) = Zpos q
            /\ Zpos (digits2_pos q) = Zpos (digits2_pos p) - 1.
Proof.
  destruct r as [m rb sb]. intros Hr Hd. cbn [shr_m] in Hr. subst m.
  destruct p as [p | p | ].
  - exists p. split; [reflexivity | rewrite digits2_pos_succ_xI; lia].
  - exists p. split; [reflexivity | rewrite digits2_pos_succ_xO; lia].
  - simpl in Hd. lia.
Qed.

Lemma shr_iter_digits (n : positive) :
  forall (r : shr_record) (p : positive),
    shr_m r = Zpos p -> Zpos n < Zpos (digits2_pos p) ->
    exists q, shr_m (iter_pos shr_1 n r) = Zpos q
              /\ Zpos (digits2_pos q) = Zpos (digits2_pos p) - Zpos n.
Proof.
  induction n as [n IH | n IH | ]; intros r p Hr Hn; cbn [iter_pos].
  - rewrite Pos2Z.inj_xI in Hn |- *.
    destruct (shr_1_digits r p Hr) as (q1 & H1 & D1); [lia |].
    destruct (IH _ _ H1) as (q2 & H2 & D2); [lia |].
    destruct (IH _ _ H2) as (q3 & H3 & D3); [lia |].
    exists q3. split; [exact H3 | lia].
  - rewrite Pos2Z.inj_xO in Hn |- *.
    destruct (IH _ _ Hr) as (q1 & H1 & D1); [lia |].
    destruct (IH _ _ H1) as (q2 & H2 & D2); [lia |].
    exists q2. split; [exact H2 | lia].
  - apply shr_1_digits; assumption.
Qed.

Lemma shr_m_of_loc (m : Z) (l : location) : shr_m (shr_record_of_loc m l) = m.
Proof. destruct l as [| []]; reflexivity. Qed.

Lemma shr_fexp_pos (p : positive) (e : Z) (l : location) :
  emin <= e ->
  exists r e' q, shr_fexp prec emax (Zpos p) e l = (r, e')
                 /\ shr_m r = Zpos q /\ emin <= e'.
Proof.
  intros He. unfold shr_fexp, shr.
  remember (fexp (Zdigits2 (Zpos p) + e) - e) as n eqn:Hn.
  destruct n as [| n | n].
  - do 3 eexists. split; [reflexivity |]. split; [apply shr_m_of_loc | exact He].
  - assert (Hlt : Zpos n < Zpos (digits2_pos p)).
    { unfold SpecFloat.fexp in Hn. simpl Zdigits2 in Hn.
      unfold SpecFloat.emin, prec, emax in *. lia. }
    destruct (shr_iter_digits n (shr_record_of_loc (Zpos p) l) p
                (shr_m_of_loc _ _) Hlt) as (q & Hq & _).
    do 3 eexists. split; [reflexivity |]. split; [exact Hq | lia].
  - do 3 eexists. split; [reflexivity |]. split; [apply shr_m_of_loc | exact He].
Qed.

Lemma round_nearest_even_pos (p : positive) (l : location) :
  exists q, round_nearest_even (Zpos p) l = Zpos q.
Proof.
  destruct l as [| []]; cbn [round_nearest_even].
  - exists p. reflexivity.
  - destruct (Z.even (Zpos p)); [exists p | exists (p + 1)%positive]; reflexivity.
  - exists p. reflexivity.
  - exists (p + 1)%positive. reflexivity.
Qed.

(** ** Shape of rounded results *)

Lemma binary_round_aux_sign (s : bool) (m e : Z) (l : location) :
  signed_as s (binary_round_aux prec emax s m e l).
Proof.
  unfold binary_round_aux.
  destruct (shr_fexp prec emax m e l) as [r1 e1].
  destruct (shr_fexp prec emax _ e1 loc_Exact) as [r2 e2].
  destruct (shr_m r2); [constructor | | constructor].
  destruct (e2 <=? emax - prec); constructor.
Qed.

Lemma binary_round_aux_nonzero (s : bool) (p : positive) (e : Z) (l : location) :
  emin <= e -> nonzero_as s (binary_round_aux prec emax s (Zpos p) e l).
Proof.
  intros He. unfold binary_round_aux.
  destruct (shr_fexp_pos p e l He) as (r1 & e1 & q1 & -> & Hq1 & He1).
  rewrite Hq1.
  destruct (round_nearest_even_pos q1 (loc_of_shr_record r1)) as (q2 & ->).
  destruct (shr_fexp_pos q2 e1 loc_Exact He1) as (r2 & e2 & q3 & -> & -> & _).
  destruct (e2 <=? emax - prec); constructor.
Qed.

Lemma fexp_ge_emin (z : Z) : emin <= fexp z.
Proof. unfold SpecFloat.fexp. lia. Qed.

Lemma binary_round_nonzero (s : bool) (p : positive) (e : Z) :
  emin <= e -> nonzero_as s (binary_round prec emax s p e).
Proof.
  intros He. unfold binary_round, shl_align.
  destruct (fexp (Zpos (digits2_pos p) + e) - e) eqn:Hd;
    try (apply binary_round_aux_nonzero; exact He).
  apply binary_round_aux_nonzero. apply fexp_ge_emin.
Qed.

(** ** Finite numbers and their order *)

Lemma valid_finite_inv (s : bool) (m : positive) (e : Z) :
  valid_binary (S754_finite s m e) = true ->
  emin <= e /\ Zpos (digits2_pos m) <= prec
  /\ (emin < e -> Zpos (digits2_pos m) = prec).
Proof.
  cbn [SpecFloat.valid_binary]. unfold bounded, canonical_mantissa.
  intros H. apply andb_true_iff in H. destruct H as [H _].
  apply Z.eqb_eq in H. unfold SpecFloat.fexp in H. lia.
Qed.

Lemma pow2_pos (z : Z) : 0 <= z -> 0 < 2 ^ z.
Proof. intros. apply Z.pow_pos_nonneg; lia. Qed.

Lemma scaled_pos (m : positive) (e : Z) : emin <= e -> 0 < Zpos m * 2 ^ (e - emin).
Proof. intros He. apply Z.mul_pos_pos; [lia | apply pow2_pos; lia]. Qed.

(** Canonical mantissas make the exponent decide the order. *)
Lemma scaled_lt (s1 s2 : bool) (m1 m2 : positive) (e1 e2 : Z) :
  valid_binary (S754_finite s1 m1 e1) = true ->
  valid_binary (S754_finite s2 m2 e2) = true ->
  e1 < e2 ->
  Zpos m1 * 2 ^ (e1 - emin) < Zpos m2 * 2 ^ (e2 - emin).
Proof.
  intros V1 V2 Hlt.
  apply valid_finite_inv in V1. destruct V1 as (He1 & Hd1 & _).
  apply valid_finite_inv in V2. destruct V2 as (He2 & _ & Hd2).
  specialize (Hd2 ltac:(lia)).
  pose proof (digits2_pos_bounds m1) as [_ B1].
  pose proof (digits2_pos_bounds m2) as [B2 _].
  rewrite Hd2 in B2.
  assert (B1' : Zpos m1 < 2 ^ prec).
  { eapply Z.lt_le_trans; [exact B1 |]. apply Z.pow_le_mono_r; lia. }
  replace (e2 - emin) with ((e2 - e1 - 1) + 1 + (e1 - emin)) by lia.
  rewrite !Z.pow_add_r by lia.
  pose proof (pow2_pos (e1 - emin) ltac:(lia)) as P1.
  pose proof (pow2_pos (e2 - e1 - 1) ltac:(lia)) as P2.
  assert (E : 2 ^ prec = 2 ^ (prec - 1) * 2).
  { change prec with (52 + 1) at 1. rewrite Z.pow_add_r by lia. reflexivity. }
  change (2 ^ 1) with 2.
  remember (2 ^ (e1 - emin)) as a. remember (2 ^ (e2 - e1 - 1)) as b.
  remember (2 ^ (prec - 1)) as c.
  assert (H1 : Zpos m1 * a < Zpos m2 * 2 * a)
    by (apply Z.mul_lt_mono_pos_r; lia).
  assert (H2 : Zpos m2 * 2 * a * 1 <= Zpos m2 * 2 * a * b)
    by (apply Z.mul_le_mono_nonneg_l; lia).
  replace (Zpos m2 * (b * 2 * a)) with (Zpos m2 * 2 * a * b) by ring.
  lia.
Qed.

Lemma SFcompare_SF2Z (x y : spec_float) :
  valid_binary x = true -> valid_binary y = true ->
  SFfinite x = true -> SFfinite y = true ->
  SFcompare x y = Some (SF2Z x ?= SF2Z y).
Proof.
  destruct x as [sx | sx | | sx mx ex]; try discriminate;
    destruct y as [sy | sy | | sy my ey]; try discriminate;
    intros Vx Vy _ _; cbn [SFcompare SF2Z].
  - reflexivity.
  - pose proof (scaled_pos my ey (proj1 (valid_finite_inv _ _ _ Vy))).
    f_equal. symmetry. destruct sy; cbn [cond_Zopp];
      [apply Z.compare_gt_iff | apply Z.compare_lt_iff]; lia.
  - pose proof (scaled_pos mx ex (proj1 (valid_finite_inv _ _ _ Vx))).
    f_equal. symmetry. destruct sx; cbn [cond_Zopp];
      [apply Z.compare_lt_iff | apply Z.compare_gt_iff]; lia.
  - pose proof (proj1 (valid_finite_inv _ _ _ Vx)) as Ex.
    pose proof (proj1 (valid_finite_inv _ _ _ Vy)) as Ey.
    pose proof (scaled_pos mx ex Ex) as Px.
    pose proof (scaled_pos my ey Ey) as Py.
    assert (Hcmp : (Zpos mx * 2 ^ (ex - emin) ?= Zpos my * 2 ^ (ey - emin))
                   = match ex ?= ey with
                     | Lt => Lt | Gt => Gt | Eq => Pos.compare_cont Eq mx my
                     end).
    { destruct (Z.compare_spec ex ey) as [E | L | G].
      - subst ey. change (Pos.compare_cont Eq mx my) with (Pos.compare mx my).
        pose proof (pow2_pos (ex - emin) ltac:(lia)).
        destruct (Pos.compare_spec mx my) as [E | L | G].
        + subst my. apply Z.compare_refl.
        + apply Z.compare_lt_iff. apply Z.mul_lt_mono_pos_r; lia.
        + apply Z.compare_gt_iff. apply Z.mul_lt_mono_pos_r; lia.
      - apply Z.compare_lt_iff. eapply scaled_lt; eassumption.
      - apply Z.compare_gt_iff. eapply scaled_lt; eassumption. }
    f_equal. destruct sx, sy; cbn [cond_Zopp].
    + rewrite Z.compare_opp.
      rewrite (Z.compare_antisym (Zpos mx * 2 ^ (ex - emin))), Hcmp.
      destruct (ex ?= ey); reflexivity.
    + symmetry. apply Z.compare_lt_iff. lia.
    + symmetry. apply Z.compare_gt_iff. lia.
    + rewrite Hcmp. reflexivity.
Qed.

(** ** The sign of a difference *)

Lemma iter_xO_value (d m : positive) : Zpos (Pos.iter xO m d) = Zpos m * 2 ^ Zpos d.
Proof.
  induction d as [| d IH] using Pos.peano_ind.
  - cbn [Pos.iter]. rewrite Pos2Z.inj_xO. change (2 ^ 1) with 2. ring.
  - rewrite Pos.iter_succ, Pos2Z.inj_xO, IH, Pos2Z.inj_succ, Z.pow_succ_r by lia.
    ring.
Qed.

Lemma shl_align_value (m : positive) (e ez : Z) :
  emin <= ez -> ez <= e ->
  Zpos (fst (shl_align m e ez)) * 2 ^ (ez - emin) = Zpos m * 2 ^ (e - emin).
Proof.
  intros H1 H2. unfold shl_align.
  destruct (ez - e) as [| d | d] eqn:Hd; cbn [fst].
  - replace ez with e by lia. reflexivity.
  - lia.
  - rewrite iter_xO_value, <- Z.mul_assoc, <- Z.pow_add_r by lia.
    f_equal. f_equal. lia.
Qed.

Lemma SFltb_zero_nonzero (s : bool) (x : spec_float) :
  nonzero_as s x -> SFltb (S754_zero false) x = negb s.
Proof. intros []; destruct s; reflexivity. Qed.

Lemma binary_normalize_sign (d e : Z) :
  emin <= e ->
  SFltb (S754_zero false) (binary_normalize prec emax d e false) = (0 <? d).
Proof.
  intros He. destruct d as [| p | p]; cbn [binary_normalize].
  - reflexivity.
  - rewrite (SFltb_zero_nonzero false) by (apply binary_round_nonzero; exact He).
    reflexivity.
  - rewrite (SFltb_zero_nonzero true) by (apply binary_round_nonzero; exact He).
    reflexivity.
Qed.

(** A difference of finite numbers is positive exactly when the first is
    the larger: no non-zero difference of two binary64 numbers rounds to
    zero, and rounding keeps the sign. *)
Lemma SFsub_sign (x y : spec_float) :
  valid_binary x = true -> valid_binary y = true ->
  SFfinite x = true -> SFfinite y = true ->
  SFltb (S754_zero false) (SF64sub y x) = (SF2Z x <? SF2Z y).
Proof.
  destruct x as [sx | sx | | sx mx ex]; try discriminate;
    destruct y as [sy | sy | | sy my ey]; try discriminate;
    intros Vx Vy _ _; unfold SF64sub; cbn [SFsub SF2Z].
  - destruct sy, sx; reflexivity.
  - pose proof (scaled_pos my ey (proj1 (valid_finite_inv _ _ _ Vy))).
    destruct sy; cbn [cond_Zopp SFltb SFcompare]; symmetry;
      [apply Z.ltb_ge | apply Z.ltb_lt]; lia.
  - pose proof (scaled_pos mx ex (proj1 (valid_finite_inv _ _ _ Vx))).
    destruct sx; cbn [cond_Zopp negb SFltb SFcompare]; symmetry;
      [apply Z.ltb_lt | apply Z.ltb_ge]; lia.
  - pose proof (proj1 (valid_finite_inv _ _ _ Vx)) as Ex.
    pose proof (proj1 (valid_finite_inv _ _ _ Vy)) as Ey.
    rewrite binary_normalize_sign by lia.
    pose proof (shl_align_value mx ex (Z.min ey ex) ltac:(lia) ltac:(lia)) as Hx.
    pose proof (shl_align_value my ey (Z.min ey ex) ltac:(lia) ltac:(lia)) as Hy.
    pose proof (pow2_pos (Z.min ey ex - emin) ltac:(lia)) as Pz.
    rewrite <- Hx, <- Hy.
    remember (2 ^ (Z.min ey ex - emin)) as c.
    remember (Zpos (fst (shl_align mx ex (Z.min ey ex)))) as a.
    remember (Zpos (fst (shl_align my ey (Z.min ey ex)))) as b.
    assert (0 < a) by (subst a; lia). assert (0 < b) by (subst b; lia).
    destruct sx, sy; cbn [cond_Zopp];
      destruct (Z.ltb_spec 0 (- b - - a)), (Z.ltb_spec 0 (b - - a)),
               (Z.ltb_spec 0 (- b - a)), (Z.ltb_spec 0 (b - a));
      try lia; symmetry;
      first [apply Z.ltb_lt; nia | apply Z.ltb_ge; nia].
Qed.

(** ** Results that are numbers *)

Lemma shr_1_nonneg (r : shr_record) : 0 <= shr_m r -> 0 <= shr_m (shr_1 r).
Proof.
  destruct r as [m rb sb]. cbn [shr_m]. intros H.
  destruct m as [| [p | p |] | p]; cbn [shr_1 shr_m]; lia.
Qed.

Lemma shr_iter_nonneg (n : positive) :
  forall r, 0 <= shr_m r -> 0 <= shr_m (iter_pos shr_1 n r).
Proof.
  induction n as [n IH | n IH |]; intros r H; cbn [iter_pos];
    auto using shr_1_nonneg.
Qed.

Lemma shr_fexp_nonneg (m e : Z) (l : location) :
  0 <= m -> 0 <= shr_m (fst (shr_fexp prec emax m e l)).
Proof.
  intros H. unfold shr_fexp, shr.
  destruct (fexp (Zdigits2 m + e) - e); cbn [fst];
    try (rewrite shr_m_of_loc; exact H).
  apply shr_iter_nonneg. rewrite shr_m_of_loc. exact H.
Qed.

Lemma round_nearest_even_nonneg (m : Z) (l : location) :
  0 <= m -> 0 <= round_nearest_even m l.
Proof.
  intros H. destruct l as [| []]; cbn [round_nearest_even]; try lia.
  destruct (Z.even m); lia.
Qed.

(** Rounding a mantissa that is not negative gives a number. *)
Lemma binary_round_aux_not_nan (s : bool) (m e : Z) (l : location) :
  0 <= m -> SFnot_nan (binary_round_aux prec emax s m e l) = true.
Proof.
  intros H. unfold binary_round_aux.
  pose proof (shr_fexp_nonneg m e l H) as H1.
  destruct (shr_fexp prec emax m e l) as [r1 e1]. cbn [fst] in H1.
  pose proof (shr_fexp_nonneg _ e1 loc_Exact
                (round_nearest_even_nonneg _ (loc_of_shr_record r1) H1)) as H2.
  destruct (shr_fexp prec emax _ e1 loc_Exact) as [r2 e2]. cbn [fst] in H2.
  destruct (shr_m r2); [reflexivity | | lia].
  destruct (e2 <=? emax - prec); reflexivity.
Qed.

Lemma signed_as_nonneg (x : spec_float) :
  signed_as false x -> SFnot_nan x = true -> SFnonneg x = true.
Proof. intros [] H; try reflexivity. discriminate H. Qed.

Lemma nonzero_as_nonneg (x : spec_float) : nonzero_as false x -> SFnonneg x = true.
Proof. intros []; reflexivity. Qed.

Lemma nonzero_as_not_nan (s : bool) (x : spec_float) :
  nonzero_as s x -> SFnot_nan x = true.
Proof. intros []; reflexivity. Qed.

Lemma SFnonneg_not_nan (x : spec_float) : SFnonneg x = true -> SFnot_nan x = true.
Proof. destruct x as [[] | [] | | [] m e]; intros H; try reflexivity; discriminate H. Qed.

Lemma valid_emin (s : bool) (m : positive) (e : Z) :
  valid_binary (S754_finite s m e) = true -> emin <= e.
Proof. intros V. apply (valid_finite_inv _ _ _ V). Qed.

Lemma binary_normalize_not_nan (d e : Z) :
  emin <= e -> SFnot_nan (binary_normalize prec emax d e false) = true.
Proof.
  intros He. destruct d; cbn [binary_normalize];
    [reflexivity | |]; eapply nonzero_as_not_nan, binary_round_nonzero; exact He.
Qed.

(** Adding a finite number to a number gives a number. *)
Lemma SFadd_not_nan (x y : spec_float) :
  valid_binary x = true -> valid_binary y = true ->
  SFnot_nan x = true -> SFfinite y = true -> SFnot_nan (SF64add x y) = true.
Proof.
  intros Vx Vy Hx Hy. unfold SF64add.
  destruct x as [sx | sx | | sx mx ex]; try discriminate Hx;
    destruct y as [sy | sy | | sy my ey]; try discriminate Hy;
    cbn [SFadd]; try reflexivity.
  - destruct sx, sy; reflexivity.
  - apply binary_normalize_not_nan.
    apply valid_emin in Vx, Vy. lia.
Qed.

(** Subtracting a number from a finite number gives a number. *)
Lemma SFsub_not_nan (x y : spec_float) :
  valid_binary x = true -> valid_binary y = true ->
  SFfinite x = true -> SFnot_nan y = true -> SFnot_nan (SF64sub x y) = true.
Proof.
  intros Vx Vy Hx Hy. unfold SF64sub.
  destruct x as [sx | sx | | sx mx ex]; try discriminate Hx;
    destruct y as [sy | sy | | sy my ey]; try discriminate Hy;
    cbn [SFsub]; try reflexivity.
  - destruct sx, sy; reflexivity.
  - apply binary_normalize_not_nan.
    apply valid_emin in Vx, Vy. lia.
Qed.

(** The square of a number has a clear sign bit. *)
Lemma SFmul_self_nonneg (x : spec_float) :
  SFnot_nan x = true -> SFnonneg (SF64mul x x) = true.
Proof.
  intros Hx. unfold SF64mul.
  destruct x as [sx | sx | | sx mx ex]; try discriminate Hx; cbn [SFmul].
  - destruct sx; reflexivity.
  - destruct sx; reflexivity.
  - apply signed_as_nonneg.
    + replace false with (xorb sx sx) at 1 by (destruct sx; reflexivity).
      apply binary_round_aux_sign.
    + apply binary_round_aux_not_nan. lia.
Qed.

(** The sum of two numbers with clear sign bits has a clear sign bit. *)
Lemma SFadd_nonneg (x y : spec_float) :
  valid_binary x = true -> valid_binary y = true ->
  SFnonneg x = true -> SFnonneg y = true -> SFnonneg (SF64add x y) = true.
Proof.
  intros Vx Vy Hx Hy. unfold SF64add.
  destruct x as [[] | [] | | [] mx ex]; try discriminate Hx;
    destruct y as [[] | [] | | [] my ey]; try discriminate Hy;
    cbn [SFadd]; try reflexivity.
  apply valid_emin in Vx, Vy. cbn [cond_Zopp].
  apply nonzero_as_nonneg.
  apply (binary_round_nonzero false). lia.
Qed.

Lemma div_eucl_nonneg (a b : Z) : 0 <= a -> 0 < b -> 0 <= fst (Z.div_eucl a b).
Proof.
  intros Ha Hb. pose proof (Z_div_mod a b ltac:(lia)) as H.
  destruct (Z.div_eucl a b) as [q r]. cbn [fst]. nia.
Qed.

Lemma SFdiv_core_nonneg (m1 m2 : positive) (e1 e2 : Z) :
  0 <= fst (fst (SFdiv_core_binary prec emax (Zpos m1) e1 (Zpos m2) e2)).
Proof.
  unfold SFdiv_core_binary.
  set (s := e1 - e2 - _).
  set (m' := match s with Z0 => Zpos m1 | Zpos _ => Z.shiftl (Zpos m1) s
                     | Zneg _ => 0 end).
  assert (Hm : 0 <= m').
  { subst m'. destruct s; [lia | apply Z.shiftl_nonneg; lia | lia]. }
  pose proof (div_eucl_nonneg m' (Zpos m2) Hm ltac:(lia)) as Hq.
  destruct (Z.div_eucl m' (Zpos m2)) as [q r]. exact Hq.
Qed.

(** Dividing a number by a positive finite number gives a number, with a
    clear sign bit if the dividend has one. *)
Lemma SFdiv_not_nan (x y : spec_float) :
  SFnot_nan x = true -> SFpositive_finite y = true ->
  SFnot_nan (SF64div x y) = true
  /\ (SFnonneg x = true -> SFnonneg (SF64div x y) = true).
Proof.
  intros Hx Hy. unfold SF64div.
  destruct y as [sy | sy | | [] my ey]; try discriminate Hy.
  destruct x as [sx | sx | | sx mx ex]; try discriminate Hx; cbn [SFdiv].
  - split; [reflexivity | destruct sx; auto].
  - split; [reflexivity | destruct sx; auto].
  - pose proof (SFdiv_core_nonneg mx my ex ey) as Hq.
    destruct (SFdiv_core_binary prec emax (Zpos mx) ex (Zpos my) ey)
      as [[mz ez] lz]. cbn [fst] in Hq.
    pose proof (binary_round_aux_not_nan (xorb sx false) mz ez lz Hq) as Hn.
    split; [exact Hn |].
    destruct sx; [discriminate |]. intros _.
    apply signed_as_nonneg; [apply binary_round_aux_sign | exact Hn].
Qed.

Lemma SFsqrt_core_nonneg (m : positive) (e : Z) :
  0 <= fst (fst (SFsqrt_core_binary prec emax (Zpos m) e)).
Proof.
  unfold SFsqrt_core_binary.
  set (s := e - 2 * _).
  set (m' := match s with Z0 => Zpos m | Zpos _ => Z.shiftl (Zpos m) s
                     | Zneg _ => 0 end).
  assert (Hm : 0 <= m').
  { subst m'. destruct s; [lia | apply Z.shiftl_nonneg; lia | lia]. }
  pose proof (Z.sqrtrem_sqrt m') as Hs. pose proof (Z.sqrt_nonneg m') as Hn.
  destruct (Z.sqrtrem m') as [q r]. cbn [fst] in *. lia.
Qed.

(** The square root of a number with a clear sign bit has one too. *)
Lemma SFsqrt_nonneg_number (x : spec_float) :
  SFnonneg x = true -> SFnonneg (SF64sqrt x) = true.
Proof.
  intros Hx. unfold SF64sqrt.
  destruct x as [[] | [] | | [] m e]; try discriminate Hx; cbn [SFsqrt];
    try reflexivity.
  pose proof (SFsqrt_core_nonneg m e) as Hq.
  destruct (SFsqrt_core_binary prec emax (Zpos m) e) as [[mz ez] lz].
  cbn [fst] in Hq.
  apply signed_as_nonneg;
    [apply binary_round_aux_sign | apply binary_round_aux_not_nan; exact Hq].
Qed.

(** ** Results that do not overflow *)

Lemma digits2_pos_le (p : positive) (k : Z) :
  0 <= k -> Zpos p < 2 ^ k -> Zpos (digits2_pos p) <= k.
Proof.
  intros Hk Hp. pose proof (digits2_pos_bounds p) as [B _].
  assert (H : 2 ^ (Zpos (digits2_pos p) - 1) < 2 ^ k) by lia.
  apply Z.pow_lt_mono_r_iff in H; lia.
Qed.

Lemma digits2_pos_succ_le (p : positive) :
  Zpos (digits2_pos (p + 1)) <= Zpos (digits2_pos p) + 1.
Proof.
  apply digits2_pos_le; [lia |].
  pose proof (digits2_pos_bounds p) as [_ B].
  rewrite Z.pow_add_r by lia. change (2 ^ 1) with 2. lia.
Qed.

Lemma digits2_pos_iter_xO (d p : positive) :
  Zpos (digits2_pos (Pos.iter xO p d)) = Zpos (digits2_pos p) + Zpos d.
Proof.
  induction d as [| d IH] using Pos.peano_ind.
  - cbn [Pos.iter]. apply digits2_pos_succ_xO.
  - rewrite Pos.iter_succ, digits2_pos_succ_xO, IH. lia.
Qed.

Lemma shr_fexp_pos_exp (p : positive) (e : Z) (l : location) :
  emin <= e ->
  exists r e' q, shr_fexp prec emax (Zpos p) e l = (r, e')
                 /\ shr_m r = Zpos q
                 /\ e' = Z.max e (fexp (Zpos (digits2_pos p) + e))
                 /\ Zpos (digits2_pos q) + e' = Zpos (digits2_pos p) + e.
Proof.
  intros He. unfold shr_fexp, shr. cbn [Zdigits2].
  remember (fexp (Zpos (digits2_pos p) + e) - e) as n eqn:Hn.
  destruct n as [| n | n].
  - exists (shr_record_of_loc (Zpos p) l), e, p.
    rewrite shr_m_of_loc. repeat split; lia.
  - assert (Hlt : Zpos n < Zpos (digits2_pos p)).
    { unfold SpecFloat.fexp in Hn.
      unfold SpecFloat.emin, prec, emax in *. lia. }
    destruct (shr_iter_digits n (shr_record_of_loc (Zpos p) l) p
                (shr_m_of_loc _ _) Hlt) as (q & Hq & Hd).
    exists (iter_pos shr_1 n (shr_record_of_loc (Zpos p) l)), (e + Zpos n), q.
    repeat split; [exact Hq | lia | lia].
  - exists (shr_record_of_loc (Zpos p) l), e, p.
    rewrite shr_m_of_loc. repeat split; lia.
Qed.

Lemma round_nearest_even_digits (p : positive) (l : location) :
  exists q, round_nearest_even (Zpos p) l = Zpos q
            /\ Zpos (digits2_pos q) <= Zpos (digits2_pos p) + 1.
Proof.
  pose proof (digits2_pos_succ_le p).
  destruct l as [| []]; cbn [round_nearest_even].
  - exists p. split; [reflexivity | lia].
  - destruct (Z.even (Zpos p)); [exists p | exists (p + 1)%positive];
      (split; [reflexivity | lia]).
  - exists p. split; [reflexivity | lia].
  - exists (p + 1)%positive. split; [reflexivity | lia].
Qed.

(** A mantissa and exponent well below the largest binary64 number round
    to a finite number. *)
Lemma binary_round_aux_finite (s : bool) (p : positive) (e : Z) (l : location) :
  emin <= e -> e <= emax - prec -> Zpos (digits2_pos p) + e + 1 <= emax ->
  exists q e', binary_round_aux prec emax s (Zpos p) e l = S754_finite s q e'.
Proof.
  intros He Hle Hd. unfold binary_round_aux.
  destruct (shr_fexp_pos_exp p e l He) as (r1 & e1 & q1 & -> & Hq1 & He1 & Hd1).
  rewrite Hq1.
  destruct (round_nearest_even_digits q1 (loc_of_shr_record r1))
    as (q2 & -> & Hd2).
  assert (He1' : emin <= e1) by lia.
  destruct (shr_fexp_pos_exp q2 e1 loc_Exact He1')
    as (r2 & e2 & q3 & -> & -> & He2 & _).
  assert (Hfin : e2 <= emax - prec).
  { unfold SpecFloat.fexp in *. unfold SpecFloat.emin, prec, emax in *. lia. }
  apply Z.leb_le in Hfin. rewrite Hfin. eauto.
Qed.

Lemma binary_round_finite (s : bool) (p : positive) (e : Z) :
  emin <= e -> e <= emax - prec -> Zpos (digits2_pos p) + e + 1 <= emax ->
  exists q e', binary_round prec emax s p e = S754_finite s q e'.
Proof.
  intros He Hle Hd. unfold binary_round, shl_align.
  destruct (fexp (Zpos (digits2_pos p) + e) - e) as [| d | d] eqn:Hs;
    try (apply binary_round_aux_finite; assumption).
  apply binary_round_aux_finite.
  - apply fexp_ge_emin.
  - lia.
  - rewrite digits2_pos_iter_xO. lia.
Qed.

(** ** Signs of square roots and quotients *)

Lemma signed_as_false_nonneg (x : spec_float) :
  signed_as false x -> SFnonneg_or_nan x.
Proof.
  intros []; [right; left; eexists; reflexivity | right; right; constructor
             | right; right; constructor | left; reflexivity].
Qed.

Lemma SFsqrt_nonneg (x : spec_float) : SFnonneg_or_nan (SF64sqrt x).
Proof.
  unfold SF64sqrt. destruct x as [s | [] | | [] m e]; cbn [SFsqrt].
  - right; left; eexists; reflexivity.
  - left; reflexivity.
  - right; right; constructor.
  - left; reflexivity.
  - left; reflexivity.
  - destruct (SFsqrt_core_binary prec emax (Zpos m) e) as [[mz ez] lz].
    apply signed_as_false_nonneg, binary_round_aux_sign.
Qed.

(** Dividing by a positive number keeps the sign bit, and keeps a zero a
    zero. *)
Lemma SFdiv_pos_sign (x y : spec_float) :
  nonzero_as false y ->
  SF64div x y = S754_nan
  \/ (SFsign (SF64div x y) = SFsign x
      /\ ((exists s, x = S754_zero s) -> exists s, SF64div x y = S754_zero s)).
Proof.
  intros Hy. unfold SF64div.
  destruct Hy as [| my ey]; destruct x as [sx | sx | | sx mx ex]; cbn [SFdiv];
    try (left; reflexivity);
    try (right; split; [destruct sx; reflexivity |];
         first [ intros _; eexists; reflexivity
               | intros [s Hs]; discriminate Hs ]).
  destruct (SFdiv_core_binary prec emax (Zpos mx) ex (Zpos my) ey) as [[mz ez] lz].
  pose proof (binary_round_aux_sign (xorb sx false) mz ez lz) as Hs.
  rewrite xorb_false_r in *.
  destruct Hs; [right | right | right | left; reflexivity];
    (split; [reflexivity | intros [s Hs]; discriminate Hs]).
Qed.

(** ** Primitive floats *)

#[local] Open Scope float_scope.

Lemma SFeqb_refl_iff (x : spec_float) : SFeqb x x = false <-> x = S754_nan.
Proof.
  unfold SFeqb. destruct x as [s | s | | s m e]; cbn [SFcompare].
  - split; discriminate.
  - destruct s; split; discriminate.
  - split; reflexivity.
  - rewrite Z.compare_refl.
    change (Pos.compare_cont Eq m m) with (Pos.compare m m).
    rewrite Pos.compare_refl. destruct s; split; discriminate.
Qed.

Lemma is_nan_spec (x : float) : is_nan x = true <-> Prim2SF x = S754_nan.
Proof.
  unfold is_nan. rewrite eqb_spec, negb_true_iff. apply SFeqb_refl_iff.
Qed.

Lemma is_finite_spec (x : float) :
  is_finite x = true -> SFfinite (Prim2SF x) = true.
Proof.
  unfold is_finite. rewrite negb_true_iff, orb_false_iff.
  intros [Hn Hi]. unfold is_nan in Hn. unfold is_infinity in Hi.
  rewrite eqb_spec in Hn, Hi. rewrite abs_spec in Hi.
  change (Prim2SF infinity) with (S754_infinity false) in Hi.
  destruct (Prim2SF x) as [s | s | | s m e]; try reflexivity.
  - discriminate Hi.
  - discriminate Hn.
Qed.

Lemma ltb_fkey (x y : float) :
  is_finite x = true -> is_finite y = true -> (x <? y) = (fkey x <? fkey y)%Z.
Proof.
  intros Hx Hy. rewrite ltb_spec. unfold SFltb, fkey.
  rewrite SFcompare_SF2Z by auto using Prim2SF_valid, is_finite_spec.
  unfold Z.ltb. destruct (SF2Z (Prim2SF x) ?= SF2Z (Prim2SF y))%Z; reflexivity.
Qed.

Lemma leb_fkey (x y : float) :
  is_finite x = true -> is_finite y = true -> (x <=? y) = (fkey x <=? fkey y)%Z.
Proof.
  intros Hx Hy. rewrite leb_spec. unfold SFleb, fkey.
  rewrite SFcompare_SF2Z by auto using Prim2SF_valid, is_finite_spec.
  unfold Z.leb. destruct (SF2Z (Prim2SF x) ?= SF2Z (Prim2SF y))%Z; reflexivity.
Qed.

Lemma eqb_fkey (x y : float) :
  is_finite x = true -> is_finite y = true -> (x =? y) = (fkey x =? fkey y)%Z.
Proof.
  intros Hx Hy. rewrite eqb_spec. unfold SFeqb, fkey.
  rewrite SFcompare_SF2Z by auto using Prim2SF_valid, is_finite_spec.
  destruct (Z.compare_spec (SF2Z (Prim2SF x)) (SF2Z (Prim2SF y)));
    symmetry; [apply Z.eqb_eq; assumption | apply Z.eqb_neq; lia ..].
Qed.

Lemma sub_pos_fkey (x y : float) :
  is_finite x = true -> is_finite y = true ->
  (0 <? y - x) = (fkey x <? fkey y)%Z.
Proof.
  intros Hx Hy. rewrite ltb_spec, sub_spec.
  change (Prim2SF 0) with (S754_zero false).
  apply SFsub_sign; auto using Prim2SF_valid, is_finite_spec.
Qed.

Lemma sqrt_nonneg (x : float) : is_nan (sqrt x) = true \/ (0 <=? sqrt x) = true.
Proof.
  destruct (SFsqrt_nonneg (Prim2SF x)) as [H | [[s H] | H]];
    rewrite <- sqrt_spec in H.
  - left. apply is_nan_spec. exact H.
  - right. rewrite leb_spec, H. reflexivity.
  - right. rewrite leb_spec. destruct H; reflexivity.
Qed.

(** A number that is not NaN, not below zero and not equal to zero is
    positive (possibly infinite). *)
Lemma positive_spec (y : float) :
  (0 <=? y) = true -> (y =? 0) = false -> nonzero_as false (Prim2SF y).
Proof.
  rewrite leb_spec, eqb_spec. change (Prim2SF 0) with (S754_zero false).
  destruct (Prim2SF y) as [s | [] | | [] m e]; cbn; intros H1 H2;
    try discriminate; constructor.
Qed.

Lemma SFdiv_pos_order (x y : spec_float) :
  nonzero_as false y ->
  SF64div x y = S754_nan
  \/ ((SFltb (S754_zero false) (SF64div x y) = true ->
       SFltb (S754_zero false) x = true)
      /\ (SFltb (SF64div x y) (S754_zero false) = true ->
          SFltb x (S754_zero false) = true)
      /\ (SFltb (S754_zero false) x = true ->
          SFleb (S754_zero false) (SF64div x y) = true)
      /\ (SFltb x (S754_zero false) = true ->
          SFleb (SF64div x y) (S754_zero false) = true)).
Proof.
  intros Hy. destruct (SFdiv_pos_sign x y Hy) as [E | [Hs Hz]]; [left; exact E |].
  right. destruct x as [sx | sx | | sx mx ex].
  - destruct Hz as [s ->]; [eexists; reflexivity |].
    repeat split; intros H; discriminate H.
  - destruct (SF64div _ y) as [s | s | | s m e]; cbn in Hs; try discriminate Hs;
      injection Hs as ->; destruct sx; repeat split; intros H;
      try discriminate H; reflexivity.
  - destruct (SF64div _ y) as [s | s | | s m e]; try discriminate Hs.
    repeat split; intros H; discriminate H.
  - destruct (SF64div _ y) as [s | s | | s m e]; cbn in Hs; try discriminate Hs;
      injection Hs as ->; destruct sx; repeat split; intros H;
      try discriminate H; reflexivity.
Qed.

Lemma div_nan_r (x y : float) : is_nan y = true -> is_nan (x / y) = true.
Proof.
  intros H. apply is_nan_spec in H. apply is_nan_spec.
  rewrite div_spec, H. unfold SF64div. destruct (Prim2SF x); reflexivity.
Qed.

(** The quotient by a positive number lies on the same side of zero as the
    dividend, unless it is NaN. *)
Lemma div_pos_order (x y : float) :
  (0 <=? y) = true -> (y =? 0) = false -> is_nan (x / y) = false ->
  ((0 <? x / y) = true -> (0 <? x) = true)
  /\ ((x / y <? 0) = true -> (x <? 0) = true)
  /\ ((0 <? x) = true -> (0 <=? x / y) = true)
  /\ ((x <? 0) = true -> (x / y <=? 0) = true).
Proof.
  intros H1 H2 Hn.
  destruct (SFdiv_pos_order (Prim2SF x) (Prim2SF y) (positive_spec y H1 H2))
    as [E | H].
  - rewrite <- div_spec in E. apply is_nan_spec in E. congruence.
  - rewrite <- div_spec in H. rewrite !ltb_spec, !leb_spec.
    change (Prim2SF 0) with (S754_zero false). exact H.
Qed.

(** An integer between 1 and [2 ^ 63 - 1] converts to a positive finite
    number. *)
Lemma of_uint63_positive_finite (z : Z) :
  (0 < z < 2 ^ 63)%Z ->
  SFpositive_finite (Prim2SF (of_uint63 (Uint63.of_Z z))) = true.
Proof.
  intros Hz. rewrite of_uint63_spec, Uint63.of_Z_spec.
  rewrite Z.mod_small by (change wB with (2 ^ 63)%Z; lia).
  destruct z as [| p | p]; try lia. cbn [binary_normalize].
  destruct (binary_round_finite false p 0) as (q & e' & ->).
  - unfold SpecFloat.emin, prec, emax. lia.
  - unfold prec, emax. lia.
  - pose proof (digits2_pos_le p 63 ltac:(lia) ltac:(lia)).
    unfold emax. lia.
  - reflexivity.
Qed.

Lemma SFleb_zero_nonneg (x : spec_float) :
  SFnonneg x = true -> SFleb (S754_zero false) x = true.
Proof. destruct x as [[] | [] | | [] m e]; intros H; try reflexivity; discriminate H. Qed.

Lemma nonneg_leb (x : float) :
  SFnonneg (Prim2SF x) = true -> (0 <=? x) = true /\ is_nan x = false.
Proof.
  intros H. split.
  - rewrite leb_spec. apply SFleb_zero_nonneg. exact H.
  - destruct (is_nan x) eqn:E; [| reflexivity].
    apply is_nan_spec in E. rewrite E in H. discriminate H.
Qed.

Lemma add_not_nan (x y : float) :
  SFnot_nan (Prim2SF x) = true -> is_finite y = true ->
  SFnot_nan (Prim2SF (x + y)) = true.
Proof.
  intros Hx Hy. rewrite add_spec.
  apply SFadd_not_nan; auto using Prim2SF_valid, is_finite_spec.
Qed.

Lemma sub_not_nan (x y : float) :
  is_finite x = true -> SFnot_nan (Prim2SF y) = true ->
  SFnot_nan (Prim2SF (x - y)) = true.
Proof.
  intros Hx Hy. rewrite sub_spec.
  apply SFsub_not_nan; auto using Prim2SF_valid, is_finite_spec.
Qed.

Lemma mul_self_nonneg (x : float) :
  SFnot_nan (Prim2SF x) = true -> SFnonneg (Prim2SF (x * x)) = true.
Proof. intros Hx. rewrite mul_spec. apply SFmul_self_nonneg. exact Hx. Qed.

Lemma add_nonneg (x y : float) :
  SFnonneg (Prim2SF x) = true -> SFnonneg (Prim2SF y) = true ->
  SFnonneg (Prim2SF (x + y)) = true.
Proof.
  intros Hx Hy. rewrite add_spec.
  apply SFadd_nonneg; auto using Prim2SF_valid.
Qed.

Lemma div_not_nan (x y : float) :
  SFnot_nan (Prim2SF x) = true -> SFpositive_finite (Prim2SF y) = true ->
  SFnot_nan (Prim2SF (x / y)) = true.
Proof. intros Hx Hy. rewrite div_spec. apply SFdiv_not_nan; assumption. Qed.

Lemma div_nonneg (x y : float) :
  SFnonneg (Prim2SF x) = true -> SFpositive_finite (Prim2SF y) = true ->
  SFnonneg (Prim2SF (x / y)) = true.
Proof.
  intros Hx Hy. rewrite div_spec.
  apply SFdiv_not_nan; auto using SFnonneg_not_nan.
Qed.

Lemma sqrt_nonneg_number (x : float) :
  SFnonneg (Prim2SF x) = true -> SFnonneg (Prim2SF (sqrt x)) = true.
Proof. intros Hx. rewrite sqrt_spec. apply SFsqrt_nonneg_number. exact Hx. Qed.

(** A finite number minus itself is [+0]. *)
Lemma sub_diag (x : float) : is_finite x = true -> x - x = 0.
Proof.
  intros Hx. apply is_finite_spec in Hx. apply Prim2SF_inj.
  rewrite sub_spec. change (Prim2SF 0) with (S754_zero false).
  unfold SF64sub.
  destruct (Prim2SF x) as [[] | s | | s m e]; try discriminate Hx;
    cbn [SFsub]; try reflexivity.
  rewrite Z.sub_diag. reflexivity.
Qed.

(** [+0] divided by a positive finite number is [+0]. *)
Lemma zero_div_positive (y : float) :
  SFpositive_finite (Prim2SF y) = true -> 0 / y = 0.
Proof.
  intros Hy. apply Prim2SF_inj. rewrite div_spec.
  change (Prim2SF 0) with (S754_zero false). unfold SF64div.
  destruct (Prim2SF y) as [sy | sy | | [] my ey]; try discriminate Hy.
  reflexivity.
Qed.

(** NaN is absorbing for the sum and the quotient. *)
Lemma add_nan_l (x y : float) : is_nan x = true -> is_nan (x + y) = true.
Proof.
  intros H. apply is_nan_spec in H. apply is_nan_spec.
  rewrite add_spec, H. reflexivity.
Qed.

Lemma add_nan_r (x y : float) : is_nan y = true -> is_nan (x + y) = true.
Proof.
  intros H. apply is_nan_spec in H. apply is_nan_spec.
  rewrite add_spec, H. unfold SF64add. destruct (Prim2SF x); reflexivity.
Qed.

Lemma div_nan_l (x y : float) : is_nan x = true -> is_nan (x / y) = true.
Proof.
  intros H. apply is_nan_spec in H. apply is_nan_spec.
  rewrite div_spec, H. reflexivity.
Qed.

End Binary64Facts.

(* ================================================================== *)
(** * Properties of the program *)
(* ================================================================== *)

Import Binary64 Binary64Facts.

(** ** Arrays *)

Lemma slice_length {A : Type} (arr : list A) (first last : Z) :
  (0 <= first <= last)%Z -> (last <= Z.of_nat (length arr))%Z ->
  Z.of_nat (length (slice arr first last)) = (last - first)%Z.
Proof.
  intros H1 H2. unfold slice.
  destruct (Z.ltb_spec first 0); [lia |].
  destruct (Z.ltb_spec last 0); [lia |].
  rewrite length_firstn, length_skipn. lia.
Qed.

Lemma indexOf_from_cases (years : list float) (y : float) :
  forall i : Z,
    (indexOf_from years y i = (-1)%Z /\ Spec.absent years y)
    \/ exists n, indexOf_from years y i = (i + Z.of_nat n)%Z
                 /\ Spec.first_at years y n /\ (n < length years)%nat.
Proof.
  induction years as [| x rest IH]; intros i; cbn [indexOf_from].
  - left. split; [reflexivity | constructor].
  - destruct (x =? y) eqn:E.
    + right. exists 0%nat. split; [lia |]. split; [| cbn; lia].
      split; [exists x; split; [reflexivity | exact E] | intros j ? Hj; lia].
    + destruct (IH (i + 1)%Z) as [[H1 H2] | (n & H1 & [[x' [Hx Ex]] Hn] & Hl)].
      * left. split; [exact H1 | constructor; assumption].
      * right. exists (S n). split; [lia |]. split; [| cbn; lia].
        split; [exists x'; split; assumption |].
        intros [| j] x0 Hj Hx0; cbn in Hx0.
        -- injection Hx0 as <-. exact E.
        -- apply (Hn j); [lia | exact Hx0].
Qed.

Lemma first_at_unique (years : list float) (y : float) (n m : nat) :
  Spec.first_at years y n -> Spec.first_at years y m -> n = m.
Proof.
  intros [[x [Hx Ex]] Hn] [[x' [Hx' Ex']] Hm].
  destruct (Nat.lt_trichotomy n m) as [L | [E | L]]; [| exact E |].
  - rewrite (Hm n x L Hx) in Ex. discriminate.
  - rewrite (Hn m x' L Hx') in Ex'. discriminate.
Qed.

Lemma first_at_not_absent (years : list float) (y : float) (n : nat) :
  Spec.first_at years y n -> ~ Spec.absent years y.
Proof.
  intros [[x [Hx Ex]] _] Habs. unfold Spec.absent in Habs.
  rewrite Forall_forall in Habs.
  rewrite (Habs x (nth_error_In _ _ Hx)) in Ex. discriminate.
Qed.

Lemma position_first_at (years : list float) (y : float) (i : Z) :
  Spec.position years y i <-> (0 <= i)%Z /\ Spec.first_at years y (Z.to_nat i).
Proof. unfold Spec.position, Spec.first_at. tauto. Qed.

(** [indexOf] finds the position of a year, and returns [-1] exactly for an
    absent one. *)
Lemma indexOf_position (years : list float) (y : float) (i : Z) :
  Spec.position years y i <-> indexOf years y = i /\ i <> (-1)%Z.
Proof.
  rewrite position_first_at. unfold indexOf.
  destruct (indexOf_from_cases years y 0) as [[H1 H2] | (n & H1 & Hn & _)].
  - split.
    + intros [_ Hf]. exfalso. exact (first_at_not_absent _ _ _ Hf H2).
    + intros [E Hne]. congruence.
  - split.
    + intros [Hi Hf]. pose proof (first_at_unique _ _ _ _ Hn Hf). lia.
    + intros [E _]. rewrite H1 in E. subst i.
      replace (0 + Z.of_nat n)%Z with (Z.of_nat n) by lia.
      rewrite Nat2Z.id. split; [lia | exact Hn].
Qed.

Lemma indexOf_absent (years : list float) (y : float) :
  Spec.absent years y <-> indexOf years y = (-1)%Z.
Proof.
  unfold indexOf.
  destruct (indexOf_from_cases years y 0) as [[H1 H2] | (n & H1 & Hn & _)].
  - tauto.
  - split.
    + intros Habs. exfalso. exact (first_at_not_absent _ _ _ Hn Habs).
    + lia.
Qed.

Lemma indexOf_range (years : list float) (y : float) :
  indexOf years y = (-1)%Z
  \/ (0 <= indexOf years y < Z.of_nat (length years))%Z.
Proof.
  unfold indexOf.
  destruct (indexOf_from_cases years y 0) as [[H1 _] | (n & H1 & _ & Hl)];
    [left; exact H1 | right; lia].
Qed.

Lemma sliceByYearRange_Some (years : list float) (fromYear toYear : float)
    (i j : Z) :
  sliceByYearRange years fromYear toYear = Some (i, j)
  <-> indexOf years fromYear = i /\ indexOf years toYear = j
      /\ i <> (-1)%Z /\ j <> (-1)%Z /\ (i <= j)%Z.
Proof.
  unfold sliceByYearRange.
  destruct (Z.eqb_spec (indexOf years fromYear) (-1));
    destruct (Z.eqb_spec (indexOf years toYear) (-1));
    destruct (Z.gtb_spec (indexOf years fromYear) (indexOf years toYear));
    cbn [orb]; (split; intros Hs;
      [ first [discriminate Hs | injection Hs as <- <-; lia]
      | first [exfalso; lia | destruct Hs as (<- & <- & _); reflexivity] ]).
Qed.

Lemma sliceByYearRange_bounds (years : list float) (fromYear toYear : float)
    (i j : Z) :
  sliceByYearRange years fromYear toYear = Some (i, j) ->
  (0 <= i <= j)%Z /\ (j < Z.of_nat (length years))%Z.
Proof.
  intros H. apply sliceByYearRange_Some in H.
  destruct H as (Hi & Hj & Ni & Nj & Hle).
  pose proof (indexOf_range years fromYear).
  pose proof (indexOf_range years toYear). lia.
Qed.

(** C5. [sliceByYearRange] returns the exact positions of both years when
    both are present with the first at or before the second, and [null]
    when a year is absent or the positions are reversed; nothing else is
    ever returned.  For a one-element list [[y]] the range from [y] to [y]
    is [(0, 0)], [y] being a number that [indexOf] can find: any number
    but NaN. *)
Theorem sliceByYearRange_exact (years : list float) (fromYear toYear : float) :
  (forall i j,
      sliceByYearRange years fromYear toYear = Some (i, j)
      <-> Spec.position years fromYear i /\ Spec.position years toYear j
          /\ (i <= j)%Z)
  /\ (sliceByYearRange years fromYear toYear = None
      <-> Spec.absent years fromYear \/ Spec.absent years toYear
          \/ exists i j, Spec.position years fromYear i
                         /\ Spec.position years toYear j /\ (j < i)%Z)
  /\ (forall y, sliceByYearRange [y] y y = Some (0, 0)%Z <-> isNaN y = false).
Proof.
  split; [| split].
  - intros i j. rewrite sliceByYearRange_Some, !indexOf_position. tauto.
  - rewrite !indexOf_absent. unfold sliceByYearRange.
    destruct (Z.eqb_spec (indexOf years fromYear) (-1)) as [E1 | N1];
      [split; [auto | reflexivity] |].
    destruct (Z.eqb_spec (indexOf years toYear) (-1)) as [E2 | N2];
      [split; [auto | reflexivity] |].
    destruct (Z.gtb_spec (indexOf years fromYear) (indexOf years toYear))
      as [G | G]; cbn [orb]; split; try discriminate.
    + intros _. right. right.
      exists (indexOf years fromYear), (indexOf years toYear).
      rewrite !indexOf_position. auto.
    + reflexivity.
    + intros [H | [H | (i & j & Hi & Hj & Hlt)]]; [congruence | congruence |].
      apply indexOf_position in Hi, Hj. lia.
  - intros y. unfold isNaN, is_nan, sliceByYearRange, indexOf.
    cbn [indexOf_from]. destruct (y =? y); cbn; split; congruence.
Qed.

(** ** Mean and standard deviation *)

Lemma valid_numbers_entries (arr : list value) :
  valid_numbers arr = Spec.entries arr.
Proof.
  unfold Spec.entries.
  induction arr as [| v rest IH]; [reflexivity |].
  destruct v as [x | | | b | s]; cbn [valid_numbers filter Spec.valid_entry];
    try exact IH.
  unfold isNaN. destruct (negb (is_nan x)); [| exact IH].
  cbn [flat_map app]. f_equal. exact IH.
Qed.

Lemma valid_numbers_not_nan (arr : list value) :
  Forall (fun x => isNaN x = false) (valid_numbers arr).
Proof.
  induction arr as [| v rest IH]; [constructor |].
  destruct v as [x | | | b | s]; cbn [valid_numbers]; try exact IH.
  destruct (isNaN x) eqn:E; cbn [negb]; [exact IH | constructor; assumption].
Qed.

Lemma valid_numbers_map_VNumber (xs : list float) :
  Forall (fun x => isNaN x = false) xs -> valid_numbers (map VNumber xs) = xs.
Proof.
  induction 1 as [| x rest Hx _ IH]; [reflexivity |].
  cbn [map valid_numbers]. rewrite Hx. cbn [negb]. f_equal. exact IH.
Qed.

(** Filtering an already filtered array changes nothing. *)
Lemma valid_numbers_idempotent (arr : list value) :
  valid_numbers (map VNumber (valid_numbers arr)) = valid_numbers arr.
Proof. apply valid_numbers_map_VNumber, valid_numbers_not_nan. Qed.

Lemma fold_left_add_map {A : Type} (f : A -> float) (xs : list A) :
  forall acc,
    fold_left (fun a v => a + f v) xs acc = fold_left PrimFloat.add (map f xs) acc.
Proof.
  induction xs as [| x rest IH]; intros acc; [reflexivity |].
  cbn [fold_left map]. apply IH.
Qed.

Lemma mean_eq (arr : list value) :
  mean arr = match valid_numbers arr with
             | [] => None
             | xs => Some (Spec.arithmetic_mean xs)
             end.
Proof.
  unfold mean. destruct (valid_numbers arr) as [| x xs]; reflexivity.
Qed.

Lemma stdDev_eq (arr : list value) :
  stdDev arr = if Nat.ltb (length (valid_numbers arr)) 2 then None
               else Some (Spec.sample_std (valid_numbers arr)).
Proof.
  unfold stdDev. destruct (Nat.ltb_spec (length (valid_numbers arr)) 2) as [L | G];
    [reflexivity |].
  rewrite mean_eq, valid_numbers_idempotent.
  destruct (valid_numbers arr) as [| x xs] eqn:E; [cbn in G; lia |].
  cbn [to_number]. unfold Spec.sample_std, Spec.total.
  rewrite <- fold_left_add_map. reflexivity.
Qed.

(** C1. [mean] returns the arithmetic mean of the valid numeric entries of
    a series (entries that are not numbers, and NaN, are left out), or
    [null] when there is none; [stdDev] returns their sample standard
    deviation with divisor [n - 1], or [null] when there are fewer than
    two. *)
Theorem mean_stdDev_computeStats (series : list value) :
  mean series = Spec.computeStats_mean series
  /\ stdDev series = Spec.computeStats_std series.
Proof.
  split.
  - rewrite mean_eq, valid_numbers_entries. reflexivity.
  - rewrite stdDev_eq, valid_numbers_entries. reflexivity.
Qed.

(** The mean is [null] only if the standard deviation is. *)
Lemma mean_None_stdDev_None (arr : list value) :
  mean arr = None -> stdDev arr = None.
Proof.
  rewrite mean_eq, stdDev_eq.
  destruct (valid_numbers arr); [reflexivity | discriminate].
Qed.

(** ** The stability of a group *)

Lemma groupStats_stability (ds : Dataset) :
  r_stability (groupStats ds)
  = match stdDev (data ds), mean (data ds) with
    | Some s, Some m => if s =? 0 then None else Some (m / s)
    | _, _ => None
    end.
Proof.
  unfold groupStats. cbn [r_stability].
  destruct (mean (data ds)), (stdDev (data ds)) as [s |]; try reflexivity.
  destruct (s =? 0); reflexivity.
Qed.

(** C2, as the code has it.  The stability of a group is [null] exactly
    when its standard deviation is [null] or zero; otherwise it is the
    mean divided by the standard deviation, also when the standard
    deviation is NaN or infinite. *)
Theorem stability_null_iff_std_null_or_zero (ds : Dataset) :
  let r := groupStats ds in
  (r_stability r = None
   <-> r_std r = None \/ exists s, r_std r = Some s /\ (s =? 0) = true)
  /\ (forall s, r_std r = Some s -> (s =? 0) = false ->
                exists m, r_mean r = Some m /\ r_stability r = Some (m / s)).
Proof.
  cbn zeta. rewrite groupStats_stability.
  unfold groupStats; cbn [r_std r_mean].
  pose proof (mean_None_stdDev_None (data ds)) as Hm.
  destruct (stdDev (data ds)) as [s |].
  - destruct (mean (data ds)) as [m |]; [| discriminate (Hm eq_refl)].
    split.
    + destruct (s =? 0) eqn:E; split.
      * intros _. right. exists s. auto.
      * reflexivity.
      * discriminate.
      * intros [H | (s' & H & E')]; [discriminate H |].
        injection H as <-. congruence.
    + intros s' H E. injection H as <-. rewrite E. exists m. auto.
  - split; [split; auto | discriminate].
Qed.

(** C2 as stated fails: the values 1e200 and 2e200 have an infinite
    standard deviation (the squared deviations overflow), and the
    stability is the number 0, not [null]. *)
Lemma stability_not_null_for_infinite_std :
  let r := groupStats {| label := "A"; data := [VNumber 1e200; VNumber 2e200] |} in
  r_std r = Some infinity /\ r_stability r = Some 0
  /\ ~ Spec.null_iff_std_degenerate r.
Proof.
  cbn zeta.
  assert (E1 : r_std (groupStats {| label := "A";
                 data := [VNumber 1e200; VNumber 2e200] |}) = Some infinity)
    by (vm_compute; reflexivity).
  assert (E2 : r_stability (groupStats {| label := "A";
                 data := [VNumber 1e200; VNumber 2e200] |}) = Some 0)
    by (vm_compute; reflexivity).
  split; [exact E1 |]. split; [exact E2 |].
  unfold Spec.null_iff_std_degenerate. rewrite E1, E2. intros [_ H].
  assert (Hn : Some 0 = None).
  { apply H. right. exists infinity. split; [reflexivity |].
    right. right. vm_compute. reflexivity. }
  discriminate Hn.
Qed.

(** C8. The result of [computeStabilityFromLineDatasets] does not depend on
    its [years] argument. *)
Theorem computeStability_ignores_years (years1 years2 : list float)
    (datasets : list Dataset) :
  computeStabilityFromLineDatasets years1 datasets
  = computeStabilityFromLineDatasets years2 datasets.
Proof. unfold computeStabilityFromLineDatasets. reflexivity. Qed.

(** ** Sorting *)

Section SortFacts.
Context {A : Type} (comparefn : A -> A -> float).

(** [key] measures the elements that satisfy [ok]: [comparefn a b > 0]
    exactly when [a] has the smaller key. *)
Variable key : A -> Z.
Variable ok : A -> Prop.
Hypothesis comparefn_key :
  forall a b, ok a -> ok b -> (0 <? comparefn a b) = (key a <? key b)%Z.

Lemma insert_Permutation (a : A) (l : list A) :
  Permutation (insert comparefn a l) (a :: l).
Proof.
  induction l as [| b rest IH]; cbn [insert]; [reflexivity |].
  destruct (0 <? comparefn a b); [| reflexivity].
  rewrite IH. apply perm_swap.
Qed.

Lemma sort_Permutation (l : list A) : Permutation (sort comparefn l) l.
Proof.
  induction l as [| a rest IH]; cbn [sort fold_right]; [reflexivity |].
  rewrite insert_Permutation. apply perm_skip. exact IH.
Qed.

Lemma sort_Forall (P : A -> Prop) (l : list A) :
  Forall P l -> Forall P (sort comparefn l).
Proof.
  intros H. eapply Permutation_Forall; [| exact H].
  symmetry. apply sort_Permutation.
Qed.

Lemma insert_sorted (a : A) (l : list A) :
  ok a -> Forall ok l ->
  StronglySorted (fun x y => (key y <= key x)%Z) l ->
  StronglySorted (fun x y => (key y <= key x)%Z) (insert comparefn a l).
Proof.
  intros Ha Hl Hs. induction Hs as [| b rest Hs IH Hb]; cbn [insert].
  - repeat constructor.
  - apply Forall_cons_iff in Hl. destruct Hl as [Hokb Hrest].
    rewrite comparefn_key by assumption.
    destruct (Z.ltb_spec (key a) (key b)) as [L | G].
    + constructor; [apply IH; exact Hrest |].
      eapply Permutation_Forall;
        [symmetry; apply insert_Permutation |].
      constructor; [lia | exact Hb].
    + constructor; [constructor; assumption |].
      constructor; [exact G |].
      eapply Forall_impl; [| exact Hb]. cbn beta. intros c Hc. lia.
Qed.

Lemma sort_sorted (l : list A) :
  Forall ok l ->
  StronglySorted (fun x y => (key y <= key x)%Z) (sort comparefn l).
Proof.
  induction 1 as [| a rest Ha Hrest IH]; cbn [sort fold_right];
    [constructor |].
  apply insert_sorted; [exact Ha | apply sort_Forall; exact Hrest | exact IH].
Qed.

(** Stability: the elements of any one key keep their order. *)
Lemma insert_filter_key (z : Z) (a : A) (l : list A) :
  ok a -> Forall ok l ->
  filter (fun r => (key r =? z)%Z) (insert comparefn a l)
  = filter (fun r => (key r =? z)%Z) (a :: l).
Proof.
  intros Ha Hl. induction Hl as [| b rest Hb Hrest IH]; cbn [insert];
    [reflexivity |].
  rewrite comparefn_key by assumption.
  destruct (Z.ltb_spec (key a) (key b)) as [L | G]; [| reflexivity].
  cbn [filter] in IH |- *. rewrite IH.
  destruct (Z.eqb_spec (key b) z) as [Eb | Nb];
    destruct (Z.eqb_spec (key a) z) as [Ea | Na]; try reflexivity.
  lia.
Qed.

Lemma sort_filter_key (z : Z) (l : list A) :
  Forall ok l ->
  filter (fun r => (key r =? z)%Z) (sort comparefn l)
  = filter (fun r => (key r =? z)%Z) l.
Proof.
  induction 1 as [| a rest Ha Hrest IH]; cbn [sort fold_right];
    [reflexivity |].
  rewrite insert_filter_key by (try apply sort_Forall; assumption).
  cbn [filter]. fold (sort comparefn rest). rewrite IH. reflexivity.
Qed.

(** A list is determined by being sorted and by the order of the elements
    of each key: every stable sort returns the same list. *)
Lemma sorted_stable_unique (l1 : list A) :
  forall l2 : list A,
    StronglySorted (fun x y => (key y <= key x)%Z) l1 ->
    StronglySorted (fun x y => (key y <= key x)%Z) l2 ->
    (forall z, filter (fun r => (key r =? z)%Z) l1
               = filter (fun r => (key r =? z)%Z) l2) ->
    l1 = l2.
Proof.
  induction l1 as [| a t1 IH]; intros [| b t2] S1 S2 Hf.
  - reflexivity.
  - specialize (Hf (key b)). cbn [filter] in Hf.
    rewrite Z.eqb_refl in Hf. discriminate Hf.
  - specialize (Hf (key a)). cbn [filter] in Hf.
    rewrite Z.eqb_refl in Hf. discriminate Hf.
  - apply StronglySorted_inv in S1, S2.
    destruct S1 as [S1 F1], S2 as [S2 F2].
    rewrite Forall_forall in F1, F2.
    assert (Hk : key a = key b).
    { destruct (Z.eq_dec (key a) (key b)) as [E | N]; [exact E | exfalso].
      pose proof (Hf (key a)) as Ha. pose proof (Hf (key b)) as Hb.
      cbn [filter] in Ha, Hb. rewrite Z.eqb_refl in Ha, Hb.
      destruct (Z.eqb_spec (key b) (key a)) as [E' | _]; [lia |].
      destruct (Z.eqb_spec (key a) (key b)) as [E' | _]; [lia |].
      assert (In a t2).
      { eapply (proj1 (filter_In _ _ _)). rewrite <- Ha. left. reflexivity. }
      assert (In b t1).
      { eapply (proj1 (filter_In _ _ _)). rewrite Hb. left. reflexivity. }
      pose proof (F1 b ltac:(assumption)). pose proof (F2 a ltac:(assumption)).
      lia. }
    assert (Hab : a = b).
    { specialize (Hf (key a)). cbn [filter] in Hf.
      rewrite <- Hk, Z.eqb_refl in Hf. injection Hf as E _. exact E. }
    subst b. f_equal. apply IH; [exact S1 | exact S2 |].
    intros z. specialize (Hf z). cbn [filter] in Hf.
    destruct (key a =? z)%Z; [injection Hf as E; exact E | exact Hf].
Qed.

End SortFacts.

(** ** The ranked list *)

Lemma rankable_finite (r : GroupStats) :
  rankable r = true <-> Spec.finite_stability r.
Proof.
  unfold rankable, Spec.finite_stability.
  destruct (r_stability r) as [x |].
  - rewrite andb_true_iff, negb_true_iff. split.
    + intros [H1 H2]. exists x. auto.
    + intros (x' & E & H1 & H2). injection E as <-. auto.
  - split; [discriminate | intros (x' & E & _); discriminate E].
Qed.

Lemma rankable_is_finite (r : GroupStats) :
  rankable r = true -> is_finite (Spec.stability_of r) = true.
Proof.
  intros H. apply rankable_finite in H. destruct H as (x & E & _ & H).
  unfold Spec.stability_of. rewrite E. exact H.
Qed.

(** The comparison function of the sort agrees with the order of the
    stabilities. *)
Lemma byStability_key (a b : GroupStats) :
  rankable a = true -> rankable b = true ->
  (0 <? byStability a b)
  = (fkey (Spec.stability_of a) <? fkey (Spec.stability_of b))%Z.
Proof.
  intros Ha Hb. unfold byStability.
  apply sub_pos_fkey; apply rankable_is_finite; assumption.
Qed.

Lemma filter_rankable_Forall (rs : list GroupStats) :
  Forall (fun r => rankable r = true) (filter rankable rs).
Proof. apply Forall_forall. intros r Hr. apply filter_In in Hr. tauto. Qed.

Lemma ranked_Permutation (years : list float) (datasets : list Dataset) :
  let result := computeStabilityFromLineDatasets years datasets in
  Permutation (ranked result) (filter rankable (stats result)).
Proof. cbn. apply sort_Permutation. Qed.

Lemma ranked_rankable (years : list float) (datasets : list Dataset) :
  Forall (fun r => rankable r = true)
         (ranked (computeStabilityFromLineDatasets years datasets)).
Proof. cbn. apply sort_Forall, filter_rankable_Forall. Qed.

(** A finite number equals no number that is not finite. *)
Lemma eqb_finite_not_finite (x v : float) :
  is_finite x = true -> is_finite v = false -> (x =? v) = false.
Proof.
  intros Hx Hv. apply is_finite_spec in Hx. rewrite eqb_spec.
  destruct (Prim2SF v) as [s | s | | s m e] eqn:Ev.
  - exfalso. unfold is_finite, is_nan, is_infinity in Hv.
    rewrite !eqb_spec, abs_spec, Ev in Hv. destruct s; discriminate Hv.
  - destruct (Prim2SF x) as [sx | sx | | sx mx ex]; try discriminate Hx;
      destruct s, sx; reflexivity.
  - destruct (Prim2SF x); reflexivity.
  - exfalso. unfold is_finite, is_nan, is_infinity in Hv.
    rewrite !eqb_spec, abs_spec, Ev in Hv.
    change (Prim2SF infinity) with (S754_infinity false) in Hv.
    unfold SFeqb in Hv. cbn [SFcompare SFabs] in Hv.
    rewrite Z.compare_refl in Hv.
    change (Pos.compare_cont Eq m m) with (Pos.compare m m) in Hv.
    rewrite Pos.compare_refl in Hv. destruct s; discriminate Hv.
Qed.

Lemma tied_at_key (v : float) (rs : list GroupStats) :
  Forall (fun r => rankable r = true) rs -> is_finite v = true ->
  Spec.tied_at v rs
  = filter (fun r => (fkey (Spec.stability_of r) =? fkey v)%Z) rs.
Proof.
  intros Hrs Hv. unfold Spec.tied_at. apply filter_ext_in.
  intros r Hr. rewrite Forall_forall in Hrs.
  apply eqb_fkey; [apply rankable_is_finite; auto | exact Hv].
Qed.

Lemma tied_at_not_finite (v : float) (rs : list GroupStats) :
  Forall (fun r => rankable r = true) rs -> is_finite v = false ->
  Spec.tied_at v rs = [].
Proof.
  intros Hrs Hv. unfold Spec.tied_at.
  induction Hrs as [| r rest Hr _ IH]; [reflexivity |].
  cbn [filter].
  rewrite eqb_finite_not_finite by (try apply rankable_is_finite; assumption).
  exact IH.
Qed.

(** C3. The ranked list holds exactly the entries of [stats] whose
    stability is non-null, not NaN and finite; it is in descending order
    of stability; entries of equal stability keep the order they have in
    [stats]; and every ranked entry is an entry of [stats]. *)
Theorem ranked_sorted_stable (years : list float) (datasets : list Dataset) :
  let result := computeStabilityFromLineDatasets years datasets in
  Permutation (ranked result) (filter rankable (stats result))
  /\ (forall r, In r (ranked result)
                <-> In r (stats result) /\ Spec.finite_stability r)
  /\ StronglySorted Spec.descending (ranked result)
  /\ (forall v, Spec.tied_at v (ranked result)
                = Spec.tied_at v (filter rankable (stats result)))
  /\ incl (ranked result) (stats result).
Proof.
  cbn zeta.
  pose proof (ranked_Permutation years datasets) as HP. cbn zeta in HP.
  pose proof (ranked_rankable years datasets) as HR.
  assert (Hin : forall r,
             In r (ranked (computeStabilityFromLineDatasets years datasets))
             <-> In r (stats (computeStabilityFromLineDatasets years datasets))
                 /\ Spec.finite_stability r).
  { intros r. rewrite <- rankable_finite, <- filter_In.
    split; apply Permutation_in; [exact HP | symmetry; exact HP]. }
  split; [exact HP |]. split; [exact Hin |]. split; [| split].
  - cbn [ranked computeStabilityFromLineDatasets].
    pose proof (sort_sorted byStability
                  (fun r => fkey (Spec.stability_of r))
                  (fun r => rankable r = true) byStability_key
                  _ (filter_rankable_Forall
                       (map groupStats datasets))) as HS.
    cbn [ranked computeStabilityFromLineDatasets] in HR.
    revert HS HR.
    generalize (sort byStability (filter rankable (map groupStats datasets))).
    induction 1 as [| a l HS IH Ha]; intros HR; constructor.
    + apply IH. apply Forall_cons_iff in HR. tauto.
    + apply Forall_cons_iff in HR. destruct HR as [Hra Hrl].
      rewrite Forall_forall in *. intros b Hb. unfold Spec.descending.
      rewrite leb_fkey by (apply rankable_is_finite; auto).
      apply Z.leb_le. apply Ha. exact Hb.
  - intros v. cbn [ranked stats computeStabilityFromLineDatasets] in *.
    pose proof (filter_rankable_Forall (map groupStats datasets)) as HF.
    destruct (is_finite v) eqn:Ev.
    + rewrite !tied_at_key by assumption.
      apply (sort_filter_key byStability _ _ byStability_key). exact HF.
    + rewrite !tied_at_not_finite by assumption. reflexivity.
  - intros r Hr. apply Hin in Hr. tauto.
Qed.

(** ** [applyRange] *)

Lemma mapM_Normal {A B : Type} (f : A -> completion B) (g : A -> B)
    (arr : list A) :
  (forall a, In a arr -> f a = Normal (g a)) -> mapM f arr = Normal (map g arr).
Proof.
  induction arr as [| a rest IH]; intros H; [reflexivity |].
  cbn [mapM map]. rewrite (H a (or_introl eq_refl)). cbn [bind].
  rewrite IH by (intros b Hb; apply H; right; exact Hb). reflexivity.
Qed.

Section ApplyRangeFacts.
Variable round3 : float -> float.
Variable yearsAll : list float.
Variable lineDatasetsAll : list Dataset.

(** With a valid range [applyRange] completes normally: no [toFixed] is
    called on [null]. *)
Lemma applyRange_valid (c : Charts) (fromYear toYear : float) (fromIdx toIdx : Z) :
  sliceByYearRange yearsAll fromYear toYear = Some (fromIdx, toIdx) ->
  applyRange round3 yearsAll lineDatasetsAll c fromYear toYear
  = Normal (chartsFor round3 yearsAll lineDatasetsAll c fromIdx toIdx).
Proof.
  intros Hs. unfold applyRange. rewrite Hs.
  rewrite (mapM_Normal _ (fun r => round3 (Spec.stability_of r))).
  2:{ intros r Hr.
      pose proof (ranked_rankable (slice yearsAll fromIdx (toIdx + 1))
                    (lineFiltered lineDatasetsAll fromIdx toIdx)) as HR.
      rewrite Forall_forall in HR. specialize (HR r Hr).
      unfold rankable in HR. unfold Spec.stability_of.
      destruct (r_stability r); [reflexivity | discriminate HR]. }
  cbn [bind].
  rewrite (mapM_Normal _
             (fun r => {| p_label := r_group r;
                          p_x := round3 (to_number (r_mean r));
                          p_y := round3 (to_number (r_std r)) |})).
  2:{ intros r Hr. apply filter_In in Hr. destruct Hr as [_ Hr].
      unfold hasMeanAndStd in Hr. unfold scatterPoint.
      destruct (r_mean r); [| discriminate Hr].
      destruct (r_std r); [reflexivity | discriminate Hr]. }
  reflexivity.
Qed.

Lemma lineFiltered_lengths (fromYear toYear : float) (fromIdx toIdx : Z) :
  sliceByYearRange yearsAll fromYear toYear = Some (fromIdx, toIdx) ->
  Forall (fun ds => length (data ds) = length yearsAll) lineDatasetsAll ->
  Forall (fun ds => Z.of_nat (length (data ds)) = (toIdx - fromIdx + 1)%Z)
         (lineFiltered lineDatasetsAll fromIdx toIdx).
Proof.
  intros Hs Hinv. apply sliceByYearRange_bounds in Hs.
  unfold lineFiltered. apply Forall_map.
  eapply Forall_impl; [| exact Hinv]. cbn beta. intros ds Hds. cbn [data].
  rewrite slice_length; lia.
Qed.

End ApplyRangeFacts.

(** C4. When [sliceByYearRange] returns [null] (for instance because
    [fromYear] is not one of the years), [applyRange] changes nothing: the
    bar, scatter and line views keep their data and none is redrawn. *)
Theorem applyRange_invalid_noop (round3 : float -> float)
    (yearsAll : list float) (lineDatasetsAll : list Dataset) (c : Charts)
    (fromYear toYear : float) :
  sliceByYearRange yearsAll fromYear toYear = None ->
  applyRange round3 yearsAll lineDatasetsAll c fromYear toYear = Normal c.
Proof. intros Hs. unfold applyRange. rewrite Hs. reflexivity. Qed.

(** C4 on a page with three years: 2019 is not one of them. *)
Lemma applyRange_invalid_noop_witness :
  let c := {| barLabels := ["NUS"%string]; barData := [46]; barUpdates := 1;
              scatterData := []; scatterUpdates := 1;
              lineLabels := [2020; 2021; 2022]; lineDatasets := [];
              lineUpdates := 1 |} in
  applyRange (fun x => x) [2020; 2021; 2022]
             [{| label := "NUS"; data := [VNumber 90; VNumber 92; VNumber 94] |}]
             c 2019 2021
  = Normal c.
Proof.
  cbn zeta. apply applyRange_invalid_noop. vm_compute. reflexivity.
Defined.

(** C6. For a valid range, and when every group's series is as long as the
    list of years, [applyRange] cuts every series to the positions
    [fromIdx..toIdx] inclusive: each series of the line view, and the year
    labels, have length [toIdx - fromIdx + 1]. *)
Theorem applyRange_slice_lengths (round3 : float -> float)
    (yearsAll : list float) (lineDatasetsAll : list Dataset) (c : Charts)
    (fromYear toYear : float) (fromIdx toIdx : Z) :
  sliceByYearRange yearsAll fromYear toYear = Some (fromIdx, toIdx) ->
  Forall (fun ds => length (data ds) = length yearsAll) lineDatasetsAll ->
  Forall (fun ds => Z.of_nat (length (data ds)) = (toIdx - fromIdx + 1)%Z)
         (lineFiltered lineDatasetsAll fromIdx toIdx)
  /\ exists c',
       applyRange round3 yearsAll lineDatasetsAll c fromYear toYear = Normal c'
       /\ length (lineDatasets c') = length lineDatasetsAll
       /\ Forall (fun l => Z.of_nat (length (l_data l))
                           = (toIdx - fromIdx + 1)%Z)
                 (lineDatasets c')
       /\ Z.of_nat (length (lineLabels c')) = (toIdx - fromIdx + 1)%Z.
Proof.
  intros Hs Hinv.
  pose proof (lineFiltered_lengths _ _ _ _ _ _ Hs Hinv) as HL.
  split; [exact HL |].
  eexists. split; [apply applyRange_valid; exact Hs |].
  cbn [chartsFor lineDatasets lineLabels].
  split; [| split].
  - unfold lineFiltered. rewrite !length_map. reflexivity.
  - apply Forall_map. eapply Forall_impl; [| exact HL].
    intros ds Hds. exact Hds.
  - apply sliceByYearRange_bounds in Hs. rewrite slice_length; lia.
Qed.

(** C6 on a page with three years and two groups, for the range 2021 to
    2022. *)
Lemma applyRange_slice_lengths_witness :
  exists c',
    applyRange (fun x => x) [2020; 2021; 2022]
      [{| label := "NUS"; data := [VNumber 90; VNumber 92; VNumber 94] |};
       {| label := "NTU"; data := [VNumber 80; VNull; VNumber 85] |}]
      {| barLabels := []; barData := []; barUpdates := 0;
         scatterData := []; scatterUpdates := 0;
         lineLabels := []; lineDatasets := []; lineUpdates := 0 |}
      2021 2022
    = Normal c'
    /\ length (lineDatasets c') = 2%nat
    /\ Forall (fun l => Z.of_nat (length (l_data l)) = (2 - 1 + 1)%Z)
              (lineDatasets c')
    /\ Z.of_nat (length (lineLabels c')) = (2 - 1 + 1)%Z.
Proof.
  apply (applyRange_slice_lengths (fun x => x) [2020; 2021; 2022]
           [{| label := "NUS"; data := [VNumber 90; VNumber 92; VNumber 94] |};
            {| label := "NTU"; data := [VNumber 80; VNull; VNumber 85] |}]
           _ 2021 2022 1%Z 2%Z).
  - vm_compute. reflexivity.
  - repeat constructor.
Defined.

(** C9. Every entry of the ranked list has a stability that is non-null,
    not NaN and finite, so the bar view's [toFixed] never meets [null]:
    the rounded values are computed for every ranked entry and
    [applyRange] always completes normally. *)
Theorem ranked_stability_finite (round3 : float -> float)
    (years : list float) (datasets : list Dataset) :
  let result := computeStabilityFromLineDatasets years datasets in
  Forall Spec.finite_stability (ranked result)
  /\ mapM (fun r => toFixed3 round3 (r_stability r)) (ranked result)
     = Normal (map (fun r => round3 (Spec.stability_of r)) (ranked result))
  /\ forall yearsAll lineDatasetsAll c fromYear toYear,
       exists c',
         applyRange round3 yearsAll lineDatasetsAll c fromYear toYear
         = Normal c'.
Proof.
  cbn zeta. pose proof (ranked_rankable years datasets) as HR.
  split; [| split].
  - eapply Forall_impl; [| exact HR]. intros r. apply rankable_finite.
  - apply mapM_Normal. intros r Hr. rewrite Forall_forall in HR.
    specialize (HR r Hr). unfold rankable in HR. unfold Spec.stability_of.
    destruct (r_stability r); [reflexivity | discriminate HR].
  - intros yearsAll lineDatasetsAll c fromYear toYear.
    destruct (sliceByYearRange yearsAll fromYear toYear) as [[i j] |] eqn:Hs.
    + eexists. apply applyRange_valid. exact Hs.
    + exists c. unfold applyRange. rewrite Hs. reflexivity.
Qed.

(** ** Signs *)

Lemma number_of_nat_positive (n : nat) :
  (0 < n)%nat -> (Z.of_nat n < 2 ^ 63)%Z ->
  SFpositive_finite (Prim2SF (number_of_nat n)) = true.
Proof.
  intros H1 H2. unfold number_of_nat. apply of_uint63_positive_finite. lia.
Qed.

Lemma valid_numbers_length (arr : list value) :
  (length (valid_numbers arr) <= length arr)%nat.
Proof.
  induction arr as [| v rest IH]; [reflexivity |].
  destruct v as [x | | | b | s]; cbn [valid_numbers length]; try lia.
  destruct (negb (isNaN x)); cbn [length]; lia.
Qed.

Lemma total_not_nan (xs : list float) :
  Forall (fun x => is_finite x = true) xs ->
  forall acc, SFnot_nan (Prim2SF acc) = true ->
              SFnot_nan (Prim2SF (fold_left PrimFloat.add xs acc)) = true.
Proof.
  induction 1 as [| x rest Hx _ IH]; intros acc Hacc; cbn [fold_left];
    [exact Hacc |].
  apply IH. apply add_not_nan; assumption.
Qed.

Lemma squares_nonneg (m : float) (xs : list float) :
  SFnot_nan (Prim2SF m) = true ->
  Forall (fun x => is_finite x = true) xs ->
  forall acc, SFnonneg (Prim2SF acc) = true ->
              SFnonneg (Prim2SF (fold_left (fun a v => a + square (v - m))
                                           xs acc)) = true.
Proof.
  intros Hm. induction 1 as [| x rest Hx _ IH]; intros acc Hacc;
    cbn [fold_left]; [exact Hacc |].
  apply IH. apply add_nonneg; [exact Hacc |].
  unfold square. apply mul_self_nonneg, sub_not_nan; assumption.
Qed.

(** On finite entries the standard deviation is a number that is at least
    zero (it can be infinite, by overflow). *)
Lemma stdDev_finite_entries (arr : list value) (s : float) :
  Forall (fun x => isFinite x = true) (valid_numbers arr) ->
  (Z.of_nat (length arr) < 2 ^ 32)%Z ->
  stdDev arr = Some s -> (0 <=? s) = true /\ is_nan s = false.
Proof.
  intros Hfin Hlen. pose proof (valid_numbers_length arr) as Hle.
  rewrite stdDev_eq.
  destruct (Nat.ltb_spec (length (valid_numbers arr)) 2) as [L | G];
    [discriminate |].
  intros H. injection H as <-. apply nonneg_leb.
  unfold Spec.sample_std. apply sqrt_nonneg_number.
  apply div_nonneg; [| apply number_of_nat_positive; lia].
  unfold Spec.total. rewrite <- fold_left_add_map.
  apply squares_nonneg; [| exact Hfin | reflexivity].
  unfold Spec.arithmetic_mean.
  apply div_not_nan; [| apply number_of_nat_positive; lia].
  apply total_not_nan; [exact Hfin | reflexivity].
Qed.

Lemma stdDev_nonneg_or_nan (arr : list value) (s : float) :
  stdDev arr = Some s -> is_nan s = true \/ (0 <=? s) = true.
Proof.
  unfold stdDev. destruct (Nat.ltb _ 2); [discriminate |].
  intros H. injection H as <-. apply sqrt_nonneg.
Qed.

(** C10, as the code has it.  A non-null result of [stdDev] is never below
    zero: it is at least zero whenever the numeric entries of the series
    are finite (an array has fewer than [2 ^ 32] entries), and NaN or at
    least zero in general.  A stability that is not NaN lies on the side
    of zero where the mean lies: a positive stability comes from a
    positive mean and a negative one from a negative mean, and a positive
    (negative) mean gives a stability that is at least (at most) zero; the
    stability can be zero for a non-zero mean. *)
Theorem stdDev_sign_stability_sign (ds : Dataset) :
  (forall s, stdDev (data ds) = Some s -> is_nan s = true \/ (0 <=? s) = true)
  /\ (Forall (fun x => isFinite x = true) (valid_numbers (data ds)) ->
      (Z.of_nat (length (data ds)) < 2 ^ 32)%Z ->
      forall s, stdDev (data ds) = Some s -> (0 <=? s) = true)
  /\ (forall q m,
         r_stability (groupStats ds) = Some q ->
         r_mean (groupStats ds) = Some m ->
         isNaN q = false ->
         ((0 <? q) = true -> (0 <? m) = true)
         /\ ((q <? 0) = true -> (m <? 0) = true)
         /\ ((0 <? m) = true -> (0 <=? q) = true)
         /\ ((m <? 0) = true -> (q <=? 0) = true)).
Proof.
  split; [intros s; apply stdDev_nonneg_or_nan |].
  split; [intros Hfin Hlen s Hs;
          apply (stdDev_finite_entries _ _ Hfin Hlen Hs) |].
  intros q m Hq Hm Hnan. rewrite groupStats_stability in Hq.
  unfold groupStats in Hm; cbn [r_mean] in Hm. rewrite Hm in Hq.
  destruct (stdDev (data ds)) as [s |] eqn:Hs; [| discriminate Hq].
  destruct (s =? 0) eqn:Hz; [discriminate Hq |].
  injection Hq as <-. unfold isNaN in Hnan.
  destruct (stdDev_nonneg_or_nan _ _ Hs) as [Hsn | Hpos].
  - rewrite (div_nan_r m s Hsn) in Hnan. discriminate Hnan.
  - apply div_pos_order; assumption.
Qed.

(** C10 as stated fails.  The values 1e200 and 2e200 have a positive mean
    and an infinite standard deviation, so their stability is the finite
    number 0, which is not positive; and with an infinite entry the
    standard deviation is NaN, which is not at least zero. *)
Lemma stability_zero_for_positive_mean :
  ~ Spec.std_nonneg_stability_signed
      {| label := "A"; data := [VNumber 1e200; VNumber 2e200] |}
  /\ stdDev [VNumber infinity; VNumber 1] = Some nan
  /\ (0 <=? nan) = false.
Proof.
  split; [| split; vm_compute; reflexivity].
  intros [_ H].
  specialize (H 0 1.5e200).
  assert (Hs : Spec.same_sign 0 1.5e200)
    by (apply H; vm_compute; reflexivity).
  destruct Hs as [Hs _]. vm_compute in Hs. discriminate Hs.
Qed.

(** C7 fails on the code.  Three equal values 92.1 have the computed mean
    92.09999999999998 (the sum is rounded), so the standard deviation is
    not zero, the stability is not [null], and the group is ranked. *)
Theorem constant_series_is_ranked :
  let ds := {| label := "NUS";
               data := [VNumber 92.1; VNumber 92.1; VNumber 92.1] |} in
  let result := computeStabilityFromLineDatasets [2020; 2021; 2022] [ds] in
  r_mean (groupStats ds) = Some 92.09999999999998
  /\ r_std (groupStats ds) = Some 1.7404671430534633e-14
  /\ r_stability (groupStats ds) = Some 5291682774224648
  /\ ranked result = [groupStats ds].
Proof. cbn zeta. repeat split; vm_compute; reflexivity. Qed.

(** ** Further properties *)

Lemma valid_numbers_repeat (v : float) (n : nat) :
  isNaN v = false -> valid_numbers (repeat (VNumber v) n) = repeat v n.
Proof.
  intros Hv. induction n as [| n IH]; [reflexivity |].
  cbn [repeat valid_numbers]. rewrite Hv. cbn [negb]. f_equal. exact IH.
Qed.

Lemma is_finite_not_nan (x : float) : is_finite x = true -> is_nan x = false.
Proof.
  unfold is_finite. rewrite negb_true_iff, orb_false_iff. tauto.
Qed.

Lemma squares_repeat_zero (v : float) (n : nat) :
  is_finite v = true ->
  fold_left (fun a x => a + square (x - v)) (repeat v n) 0 = 0.
Proof.
  intros Hv. induction n as [| n IH]; [reflexivity |].
  cbn [repeat fold_left]. rewrite (sub_diag v Hv).
  change (0 + square 0) with 0. exact IH.
Qed.

Lemma not_rankable_not_ranked (years : list float) (datasets : list Dataset)
    (r : GroupStats) :
  rankable r = false ->
  ~ In r (ranked (computeStabilityFromLineDatasets years datasets)).
Proof.
  intros Hr Hin. pose proof (ranked_rankable years datasets) as HR.
  rewrite Forall_forall in HR. rewrite (HR r Hin) in Hr. discriminate Hr.
Qed.

Lemma groupStats_in_stats (years : list float) (datasets : list Dataset)
    (ds : Dataset) :
  In ds datasets ->
  In (groupStats ds) (stats (computeStabilityFromLineDatasets years datasets)).
Proof. intros H. cbn [stats computeStabilityFromLineDatasets]. apply in_map, H. Qed.

(** X1. A series that repeats one finite value at least twice, and whose
    computed mean is exactly that value, has standard deviation [0] and a
    [null] stability: the group is in [stats] and not in [ranked]. *)
Theorem constant_series_exact_mean (years : list float)
    (datasets : list Dataset) (ds : Dataset) (v : float) (n : nat) :
  In ds datasets ->
  data ds = repeat (VNumber v) n ->
  (2 <= n)%nat -> (Z.of_nat n < 2 ^ 32)%Z ->
  isFinite v = true ->
  mean (data ds) = Some v ->
  let result := computeStabilityFromLineDatasets years datasets in
  r_std (groupStats ds) = Some 0
  /\ r_stability (groupStats ds) = None
  /\ In (groupStats ds) (stats result)
  /\ ~ In (groupStats ds) (ranked result).
Proof.
  intros Hin Hdata Hn Hlen Hv Hmean result.
  assert (Hvals : valid_numbers (data ds) = repeat v n).
  { rewrite Hdata. apply valid_numbers_repeat, is_finite_not_nan, Hv. }
  assert (Hm : Spec.arithmetic_mean (repeat v n) = v).
  { rewrite mean_eq, Hvals in Hmean.
    destruct n as [| n]; [lia |]. cbn [repeat] in Hmean |- *.
    injection Hmean as E. exact E. }
  assert (Hstd : stdDev (data ds) = Some 0).
  { rewrite stdDev_eq, Hvals, repeat_length.
    destruct (Nat.ltb_spec n 2) as [L | _]; [lia |].
    unfold Spec.sample_std, Spec.total.
    rewrite <- fold_left_add_map, Hm, repeat_length.
    rewrite (squares_repeat_zero v n Hv).
    rewrite zero_div_positive by (apply number_of_nat_positive; lia).
    reflexivity. }
  assert (Hstab : r_stability (groupStats ds) = None).
  { rewrite groupStats_stability, Hstd, Hmean. reflexivity. }
  split; [exact Hstd |]. split; [exact Hstab |].
  split; [apply groupStats_in_stats; exact Hin |].
  apply not_rankable_not_ranked. unfold rankable. rewrite Hstab. reflexivity.
Qed.

(** X1 for the value 89.5 repeated three times: the sum 268.5 and the mean
    are exact. *)
Lemma constant_series_exact_mean_witness :
  let ds := {| label := "NUS";
               data := repeat (VNumber 89.5) 3 |} in
  let result := computeStabilityFromLineDatasets [2020; 2021; 2022] [ds] in
  r_std (groupStats ds) = Some 0
  /\ r_stability (groupStats ds) = None
  /\ In (groupStats ds) (stats result)
  /\ ~ In (groupStats ds) (ranked result).
Proof.
  cbn zeta.
  apply (constant_series_exact_mean [2020; 2021; 2022] _ _ 89.5 3).
  - left. reflexivity.
  - reflexivity.
  - lia.
  - lia.
  - vm_compute. reflexivity.
  - vm_compute. reflexivity.
Defined.

(** X2. A group without a valid value has a [null] mean, standard deviation
    and stability; it is in [stats] and not in [ranked]. *)
Theorem no_valid_values_all_null (years : list float)
    (datasets : list Dataset) (ds : Dataset) :
  In ds datasets ->
  Forall (fun v => Spec.valid_entry v = false) (data ds) ->
  let result := computeStabilityFromLineDatasets years datasets in
  groupStats ds = {| r_group := label ds; r_mean := None; r_std := None;
                     r_stability := None |}
  /\ In (groupStats ds) (stats result)
  /\ ~ In (groupStats ds) (ranked result).
Proof.
  intros Hin Hall result.
  assert (Hvals : valid_numbers (data ds) = []).
  { rewrite valid_numbers_entries. unfold Spec.entries.
    induction Hall as [| v rest Hv _ IH]; [reflexivity |].
    cbn [filter]. rewrite Hv. exact IH. }
  assert (Hg : groupStats ds
               = {| r_group := label ds; r_mean := None; r_std := None;
                    r_stability := None |}).
  { unfold groupStats. rewrite mean_eq, stdDev_eq, Hvals. reflexivity. }
  split; [exact Hg |].
  split; [apply groupStats_in_stats; exact Hin |].
  apply not_rankable_not_ranked. rewrite Hg. reflexivity.
Qed.

(** X2 for a series of two missing values and a NaN. *)
Lemma no_valid_values_all_null_witness :
  let ds := {| label := "SIT"; data := [VNull; VNull; VNumber nan] |} in
  let result := computeStabilityFromLineDatasets [2020; 2021; 2022] [ds] in
  groupStats ds = {| r_group := "SIT"; r_mean := None; r_std := None;
                     r_stability := None |}
  /\ In (groupStats ds) (stats result)
  /\ ~ In (groupStats ds) (ranked result).
Proof.
  cbn zeta.
  apply (no_valid_values_all_null [2020; 2021; 2022]
           [{| label := "SIT"; data := [VNull; VNull; VNumber nan] |}]
           {| label := "SIT"; data := [VNull; VNull; VNumber nan] |}).
  - left. reflexivity.
  - repeat constructor.
Defined.

(** X3. A group with a single valid value has a [null] standard deviation and
    a [null] stability, and a mean that is not [null]. *)
Theorem single_valid_value_null_std (ds : Dataset) :
  length (Spec.entries (data ds)) = 1%nat ->
  r_std (groupStats ds) = None
  /\ r_stability (groupStats ds) = None
  /\ r_mean (groupStats ds) <> None.
Proof.
  intros H. rewrite <- valid_numbers_entries in H.
  assert (Hs : stdDev (data ds) = None) by (rewrite stdDev_eq, H; reflexivity).
  split; [exact Hs |]. split.
  - rewrite groupStats_stability, Hs. reflexivity.
  - unfold groupStats; cbn [r_mean]. rewrite mean_eq.
    destruct (valid_numbers (data ds)); [discriminate H | discriminate].
Qed.

(** X3 for a series with one number between two missing values. *)
Lemma single_valid_value_null_std_witness :
  let ds := {| label := "SUTD"; data := [VNull; VNumber 91.5; VNull] |} in
  r_std (groupStats ds) = None
  /\ r_stability (groupStats ds) = None
  /\ r_mean (groupStats ds) <> None.
Proof.
  cbn zeta. apply single_valid_value_null_std. reflexivity.
Defined.

(** The scenario of the specification: the values 90, 92, 94 have mean 92
    and standard deviation 2; the values 80, missing, 85 have mean 82.5
    and the standard deviation of 80 and 85 alone, about 3.536. *)
Theorem scenario_groupA_groupB :
  mean [VNumber 90; VNumber 92; VNumber 94] = Some 92
  /\ stdDev [VNumber 90; VNumber 92; VNumber 94] = Some 2
  /\ mean [VNumber 80; VNull; VNumber 85] = Some 82.5
  /\ stdDev [VNumber 80; VNull; VNumber 85] = Some 3.5355339059327378
  /\ stdDev [VNumber 80; VNull; VNumber 85] = stdDev [VNumber 80; VNumber 85].
Proof. repeat split; vm_compute; reflexivity. Qed.

(** Lists of rankable entries with the same entries and the same ties have
    the same entries of each key, in the same order. *)
Lemma ties_by_key (l1 l2 : list GroupStats) :
  Forall (fun r => rankable r = true) l1 ->
  Forall (fun r => rankable r = true) l2 ->
  Permutation l1 l2 ->
  (forall v, Spec.tied_at v l1 = Spec.tied_at v l2) ->
  forall z, filter (fun r => (fkey (Spec.stability_of r) =? z)%Z) l1
            = filter (fun r => (fkey (Spec.stability_of r) =? z)%Z) l2.
Proof.
  intros H1 H2 HP HT z.
  destruct (filter (fun r => (fkey (Spec.stability_of r) =? z)%Z) l1)
    as [| r0 t0] eqn:E1.
  - destruct (filter (fun r => (fkey (Spec.stability_of r) =? z)%Z) l2)
      as [| r1 t1] eqn:E2; [reflexivity | exfalso].
    assert (Hin : In r1 (filter (fun r => (fkey (Spec.stability_of r) =? z)%Z)
                                l2)) by (rewrite E2; left; reflexivity).
    apply filter_In in Hin. destruct Hin as [Hin Hk].
    assert (Hin1 : In r1 (filter (fun r => (fkey (Spec.stability_of r) =? z)%Z)
                                 l1)).
    { apply filter_In. split; [| exact Hk].
      eapply Permutation_in; [symmetry; exact HP | exact Hin]. }
    rewrite E1 in Hin1. exact Hin1.
  - assert (Hin : In r0 (filter (fun r => (fkey (Spec.stability_of r) =? z)%Z)
                                l1)) by (rewrite E1; left; reflexivity).
    apply filter_In in Hin. destruct Hin as [Hin Hk].
    apply Z.eqb_eq in Hk. subst z. rewrite <- E1.
    assert (Hf : is_finite (Spec.stability_of r0) = true).
    { apply rankable_is_finite. rewrite Forall_forall in H1. auto. }
    rewrite <- !tied_at_key by assumption. apply HT.
Qed.

(** X5. The ranked list is the only arrangement of the rankable entries that is
    in descending order of stability and keeps entries of equal stability
    in their order: every stable sort by the comparison function returns
    it. *)
Theorem ranked_unique (years : list float) (datasets : list Dataset)
    (rs : list GroupStats) :
  let result := computeStabilityFromLineDatasets years datasets in
  Permutation rs (filter rankable (stats result)) ->
  StronglySorted Spec.descending rs ->
  (forall v, Spec.tied_at v rs
             = Spec.tied_at v (filter rankable (stats result))) ->
  rs = ranked result.
Proof.
  intros result HP HS HT.
  pose proof (filter_rankable_Forall (stats result)) as HF'.
  assert (HF : Forall (fun r => rankable r = true) rs)
    by (eapply Permutation_Forall; [symmetry; exact HP | exact HF']).
  apply (sorted_stable_unique (fun r => fkey (Spec.stability_of r))).
  - clear HP HT. induction HS as [| a l HS IH Ha]; constructor.
    + apply IH. apply Forall_cons_iff in HF. tauto.
    + apply Forall_cons_iff in HF. destruct HF as [Hra Hrl].
      rewrite Forall_forall in *. intros b Hb.
      specialize (Ha b Hb). unfold Spec.descending in Ha.
      rewrite leb_fkey in Ha by (apply rankable_is_finite; auto).
      apply Z.leb_le. exact Ha.
  - apply (sort_sorted byStability _ _ byStability_key). exact HF'.
  - intros z.
    change (ranked result)
      with (sort byStability (filter rankable (stats result))).
    rewrite (sort_filter_key byStability _ _ byStability_key z _ HF').
    apply ties_by_key; assumption.
Qed.

(** X5 for two groups given in descending order of stability. *)
Lemma ranked_unique_witness :
  let rs := map groupStats
              [{| label := "NUS"; data := [VNumber 95; VNumber 91; VNumber 93] |};
               {| label := "NTU"; data := [VNumber 90; VNumber 92; VNumber 94] |}] in
  rs = ranked (computeStabilityFromLineDatasets [2020; 2021; 2022]
                 [{| label := "NUS"; data := [VNumber 95; VNumber 91; VNumber 93] |};
                  {| label := "NTU"; data := [VNumber 90; VNumber 92; VNumber 94] |}]).
Proof.
  cbn zeta. apply ranked_unique.
  - vm_compute. apply Permutation_refl.
  - repeat constructor.
  - intros v. vm_compute. reflexivity.
Defined.

(** ** Missing values *)

Lemma valid_numbers_app (a b : list value) :
  valid_numbers (a ++ b) = valid_numbers a ++ valid_numbers b.
Proof.
  induction a as [| v rest IH]; [reflexivity |].
  destruct v as [x | | | bv | s]; cbn [app valid_numbers]; try exact IH.
  destruct (negb (isNaN x)); [cbn [app]; f_equal |]; exact IH.
Qed.

Lemma valid_numbers_invalid (v : value) :
  Spec.valid_entry v = false -> valid_numbers [v] = [].
Proof.
  destruct v as [x | | | b | s]; cbn [Spec.valid_entry valid_numbers];
    try reflexivity.
  unfold isNaN. intros ->. reflexivity.
Qed.

(** X4. An entry that is not a number, or is NaN, has no effect wherever
    it stands in a series: the mean, the standard deviation and the
    statistics of the group are those of the series without it. *)
Theorem invalid_entry_ignored (before after : list value) (v : value)
    (name : string) :
  Spec.valid_entry v = false ->
  mean (before ++ v :: after) = mean (before ++ after)
  /\ stdDev (before ++ v :: after) = stdDev (before ++ after)
  /\ groupStats {| label := name; data := before ++ v :: after |}
     = groupStats {| label := name; data := before ++ after |}.
Proof.
  intros Hv.
  assert (E : valid_numbers (before ++ v :: after)
              = valid_numbers (before ++ after)).
  { change (v :: after) with ([v] ++ after).
    rewrite !valid_numbers_app, (valid_numbers_invalid v Hv). reflexivity. }
  assert (Em : mean (before ++ v :: after) = mean (before ++ after))
    by (rewrite !mean_eq, E; reflexivity).
  assert (Es : stdDev (before ++ v :: after) = stdDev (before ++ after))
    by (rewrite !stdDev_eq, E; reflexivity).
  split; [exact Em |]. split; [exact Es |].
  unfold groupStats. cbn [data label]. rewrite Em, Es. reflexivity.
Qed.

(** X4 for a missing value between 80 and 85. *)
Lemma invalid_entry_ignored_witness :
  mean ([VNumber 80] ++ VNull :: [VNumber 85])
  = mean ([VNumber 80] ++ [VNumber 85])
  /\ stdDev ([VNumber 80] ++ VNull :: [VNumber 85])
     = stdDev ([VNumber 80] ++ [VNumber 85])
  /\ groupStats {| label := "NTU";
                   data := [VNumber 80] ++ VNull :: [VNumber 85] |}
     = groupStats {| label := "NTU"; data := [VNumber 80] ++ [VNumber 85] |}.
Proof. apply invalid_entry_ignored. reflexivity. Defined.

(** ** Slices *)

Lemma nth_error_slice {A : Type} (arr : list A) (first last : Z) (k : nat) :
  (0 <= first <= last)%Z ->
  nth_error (slice arr first last) k
  = if (Z.of_nat k <? last - first)%Z
    then nth_error arr (Z.to_nat first + k)
    else None.
Proof.
  intros H. unfold slice.
  destruct (Z.ltb_spec first 0); [lia |].
  destruct (Z.ltb_spec last 0); [lia |].
  set (len := Z.of_nat (length arr)).
  destruct (Z.ltb_spec (Z.of_nat k) (last - first)) as [Hk | Hk].
  - destruct (Nat.ltb_spec k (Z.to_nat (Z.min last len - Z.min first len)))
      as [L | G].
    + rewrite nth_error_firstn.
      destruct (Nat.ltb_spec k (Z.to_nat (Z.min last len - Z.min first len)));
        [| lia].
      rewrite nth_error_skipn. f_equal. lia.
    + rewrite (proj2 (nth_error_None _ _)).
      * symmetry. apply nth_error_None. subst len. lia.
      * rewrite length_firstn. lia.
  - apply nth_error_None. rewrite length_firstn, length_skipn. subst len. lia.
Qed.

Lemma slice_length_le {A : Type} (arr : list A) (first last : Z) :
  (0 <= first <= last)%Z ->
  (Z.of_nat (length (slice arr first last)) <= last - first)%Z.
Proof.
  intros H. unfold slice.
  destruct (Z.ltb_spec first 0); [lia |].
  destruct (Z.ltb_spec last 0); [lia |].
  rewrite length_firstn. lia.
Qed.

Lemma slice_all {A : Type} (arr : list A) (last : Z) :
  (Z.of_nat (length arr) <= last)%Z -> slice arr 0 last = arr.
Proof.
  intros H. unfold slice. cbn [Z.ltb Z.compare].
  destruct (Z.ltb_spec last 0); [lia |].
  rewrite Z.min_r by lia. rewrite Z.min_l by lia.
  cbn [Z.to_nat skipn]. rewrite Z.sub_0_r, Nat2Z.id. apply firstn_all.
Qed.

(** ** The three views after [applyRange] *)

Lemma groupStats_rankable_hasMeanAndStd (ds : Dataset) :
  rankable (groupStats ds) = true -> hasMeanAndStd (groupStats ds) = true.
Proof.
  unfold rankable, hasMeanAndStd. rewrite groupStats_stability.
  unfold groupStats; cbn [r_mean r_std].
  destruct (stdDev (data ds)) as [s |]; [| discriminate].
  destruct (mean (data ds)) as [m |]; [reflexivity | discriminate].
Qed.

(** X6. After [applyRange] with a valid range the bar chart has one value
    per label, and every group of the bar chart is a point of the scatter
    chart. *)
Theorem bar_groups_in_scatter (round3 : float -> float)
    (yearsAll : list float) (lineDatasetsAll : list Dataset) (c : Charts)
    (fromYear toYear : float) (fromIdx toIdx : Z) :
  sliceByYearRange yearsAll fromYear toYear = Some (fromIdx, toIdx) ->
  exists c',
    applyRange round3 yearsAll lineDatasetsAll c fromYear toYear = Normal c'
    /\ length (barLabels c') = length (barData c')
    /\ forall g, In g (barLabels c') ->
                 exists p, In p (scatterData c') /\ p_label p = g.
Proof.
  intros Hs. eexists. split; [apply applyRange_valid; exact Hs |].
  cbn [chartsFor barLabels barData scatterData].
  split; [rewrite !length_map; reflexivity |].
  intros g Hg. apply in_map_iff in Hg. destruct Hg as (r & <- & Hr).
  set (result := computeStabilityFromLineDatasets _ _) in *.
  assert (Hrank : rankable r = true).
  { pose proof (ranked_rankable (slice yearsAll fromIdx (toIdx + 1))
                  (lineFiltered lineDatasetsAll fromIdx toIdx)) as HR.
    rewrite Forall_forall in HR. apply HR. exact Hr. }
  assert (Hin : In r (stats result)).
  { pose proof (ranked_Permutation (slice yearsAll fromIdx (toIdx + 1))
                  (lineFiltered lineDatasetsAll fromIdx toIdx)) as HP.
    cbn zeta in HP. fold result in HP.
    apply (Permutation_in _ HP) in Hr. apply filter_In in Hr. tauto. }
  assert (Hms : hasMeanAndStd r = true).
  { subst result. cbn [stats computeStabilityFromLineDatasets] in Hin.
    apply in_map_iff in Hin. destruct Hin as (ds & <- & _).
    apply groupStats_rankable_hasMeanAndStd. exact Hrank. }
  eexists. split.
  - apply in_map. apply filter_In. split; [exact Hin | exact Hms].
  - reflexivity.
Qed.

(** X6 on a page with three years and two groups. *)
Lemma bar_groups_in_scatter_witness :
  exists c',
    applyRange (fun x => x) [2020; 2021; 2022]
      [{| label := "NUS"; data := [VNumber 90; VNumber 92; VNumber 94] |};
       {| label := "NTU"; data := [VNumber 80; VNull; VNumber 85] |}]
      {| barLabels := []; barData := []; barUpdates := 0;
         scatterData := []; scatterUpdates := 0;
         lineLabels := []; lineDatasets := []; lineUpdates := 0 |}
      2020 2022
    = Normal c'
    /\ length (barLabels c') = length (barData c')
    /\ forall g, In g (barLabels c') ->
                 exists p, In p (scatterData c') /\ p_label p = g.
Proof.
  apply (bar_groups_in_scatter (fun x => x) [2020; 2021; 2022] _ _
           2020 2022 0%Z 2%Z).
  vm_compute. reflexivity.
Defined.

Lemma short_series_no_std (arr : list value) :
  (length arr <= 1)%nat -> stdDev arr = None.
Proof.
  intros H. rewrite stdDev_eq. pose proof (valid_numbers_length arr).
  destruct (Nat.ltb_spec (length (valid_numbers arr)) 2); [reflexivity | lia].
Qed.

Lemma sort_nil {A : Type} (comparefn : A -> A -> float) (l : list A) :
  l = [] -> sort comparefn l = [].
Proof. intros ->. reflexivity. Qed.

Lemma filter_none {A : Type} (f : A -> bool) (l : list A) :
  (forall a, In a l -> f a = false) -> filter f l = [].
Proof.
  induction l as [| a rest IH]; intros H; [reflexivity |].
  cbn [filter]. rewrite (H a (or_introl eq_refl)).
  apply IH. intros b Hb. apply H. right. exact Hb.
Qed.

(** X7. A range of a single year that is among the years is valid, and it
    empties the bar chart and the scatter chart: every series is cut to at
    most one value, which has no standard deviation.  The line chart
    shows that one year. *)
Theorem single_year_range (round3 : float -> float)
    (yearsAll : list float) (lineDatasetsAll : list Dataset) (c : Charts)
    (year : float) :
  ~ Spec.absent yearsAll year ->
  exists c' x,
    applyRange round3 yearsAll lineDatasetsAll c year year = Normal c'
    /\ barLabels c' = [] /\ barData c' = [] /\ scatterData c' = []
    /\ lineLabels c' = [x] /\ (x =? year) = true
    /\ Forall (fun l => (length (l_data l) <= 1)%nat) (lineDatasets c')
    /\ barUpdates c' = S (barUpdates c)
    /\ scatterUpdates c' = S (scatterUpdates c)
    /\ lineUpdates c' = S (lineUpdates c).
Proof.
  intros Hpres. rewrite indexOf_absent in Hpres.
  set (i := indexOf yearsAll year) in *.
  assert (Hs : sliceByYearRange yearsAll year year = Some (i, i)).
  { apply sliceByYearRange_Some. subst i. repeat split; auto; lia. }
  assert (Hpos : Spec.position yearsAll year i)
    by (apply indexOf_position; split; [reflexivity | exact Hpres]).
  destruct Hpos as (Hi & (x & Hx & Ex) & _).
  pose proof (sliceByYearRange_bounds _ _ _ _ _ Hs) as [B1 B2].
  assert (Hshort : forall ds,
             In ds (lineFiltered lineDatasetsAll i i) ->
             (length (data ds) <= 1)%nat).
  { intros ds Hds. unfold lineFiltered in Hds. apply in_map_iff in Hds.
    destruct Hds as (ds0 & <- & _). cbn [data].
    pose proof (slice_length_le (data ds0) i (i + 1) ltac:(lia)). lia. }
  assert (Hstats : forall r,
             In r (stats (computeStabilityFromLineDatasets
                            (slice yearsAll i (i + 1))
                            (lineFiltered lineDatasetsAll i i))) ->
             r_std r = None /\ r_stability r = None).
  { intros r Hr. cbn [stats computeStabilityFromLineDatasets] in Hr.
    apply in_map_iff in Hr. destruct Hr as (ds & <- & Hds).
    pose proof (short_series_no_std _ (Hshort ds Hds)) as Hn.
    split; [exact Hn | rewrite groupStats_stability, Hn; reflexivity]. }
  assert (Hranked : ranked (computeStabilityFromLineDatasets
                              (slice yearsAll i (i + 1))
                              (lineFiltered lineDatasetsAll i i)) = []).
  { cbn [ranked computeStabilityFromLineDatasets].
    apply sort_nil, filter_none. intros r Hr.
    unfold rankable. rewrite (proj2 (Hstats r Hr)). reflexivity. }
  assert (Hscatter : filter hasMeanAndStd
                       (stats (computeStabilityFromLineDatasets
                                 (slice yearsAll i (i + 1))
                                 (lineFiltered lineDatasetsAll i i))) = []).
  { apply filter_none. intros r Hr. unfold hasMeanAndStd.
    rewrite (proj1 (Hstats r Hr)). destruct (r_mean r); reflexivity. }
  exists (chartsFor round3 yearsAll lineDatasetsAll c i i), x.
  split; [apply applyRange_valid; exact Hs |].
  cbn [chartsFor barLabels barData scatterData lineLabels lineDatasets
       barUpdates scatterUpdates lineUpdates].
  rewrite Hranked, Hscatter. cbn [map].
  repeat split; try reflexivity; try exact Ex.
  - pose proof (nth_error_slice yearsAll i (i + 1) 0 ltac:(lia)) as H0.
    pose proof (nth_error_slice yearsAll i (i + 1) 1 ltac:(lia)) as H1.
    destruct (Z.ltb_spec (Z.of_nat 0) (i + 1 - i)); [| lia].
    destruct (Z.ltb_spec (Z.of_nat 1) (i + 1 - i)); [lia |].
    rewrite Nat.add_0_r, Hx in H0.
    destruct (slice yearsAll i (i + 1)) as [| a [| b rest]];
      cbn in H0, H1; congruence.
  - apply Forall_map. apply Forall_forall. intros ds Hds.
    cbn [lineDataset l_data]. apply Hshort. exact Hds.
Qed.

(** X7 for the year 2021 of three years. *)
Lemma single_year_range_witness :
  exists c' x,
    applyRange (fun x => x) [2020; 2021; 2022]
      [{| label := "NUS"; data := [VNumber 90; VNumber 92; VNumber 94] |}]
      {| barLabels := ["NUS"%string]; barData := [46]; barUpdates := 1;
         scatterData := []; scatterUpdates := 1;
         lineLabels := [2020; 2021; 2022]; lineDatasets := [];
         lineUpdates := 1 |}
      2021 2021
    = Normal c'
    /\ barLabels c' = [] /\ barData c' = [] /\ scatterData c' = []
    /\ lineLabels c' = [x] /\ (x =? 2021) = true
    /\ Forall (fun l => (length (l_data l) <= 1)%nat) (lineDatasets c')
    /\ barUpdates c' = 2%nat /\ scatterUpdates c' = 2%nat
    /\ lineUpdates c' = 2%nat.
Proof.
  apply (single_year_range (fun x => x) [2020; 2021; 2022]).
  intros H. unfold Spec.absent in H. rewrite Forall_forall in H.
  specialize (H 2021 ltac:(right; left; reflexivity)).
  vm_compute in H. discriminate H.
Defined.

(** X8. After [applyRange] with a valid range the line chart shows the
    years from [fromYear] to [toYear] with every value under its year: the
    label at position [k] is the year at position [fromIdx + k] of
    [yearsAll], the value at position [k] of every series is the group's
    value at position [fromIdx + k], groups keep their labels and their
    order, the first label is [fromYear] and the last is [toYear]. *)
Theorem applyRange_alignment (round3 : float -> float)
    (yearsAll : list float) (lineDatasetsAll : list Dataset) (c : Charts)
    (fromYear toYear : float) (fromIdx toIdx : Z) :
  sliceByYearRange yearsAll fromYear toYear = Some (fromIdx, toIdx) ->
  exists c',
    applyRange round3 yearsAll lineDatasetsAll c fromYear toYear = Normal c'
    /\ (forall k, (Z.of_nat k <= toIdx - fromIdx)%Z ->
                  nth_error (lineLabels c') k
                  = nth_error yearsAll (Z.to_nat fromIdx + k))
    /\ Forall2 (fun ds l =>
                  l_label l = label ds
                  /\ forall k, (Z.of_nat k <= toIdx - fromIdx)%Z ->
                               nth_error (l_data l) k
                               = nth_error (data ds) (Z.to_nat fromIdx + k))
               lineDatasetsAll (lineDatasets c')
    /\ (exists x, nth_error (lineLabels c') 0 = Some x
                  /\ (x =? fromYear) = true)
    /\ (exists x, nth_error (lineLabels c') (Z.to_nat (toIdx - fromIdx))
                  = Some x
                  /\ (x =? toYear) = true).
Proof.
  intros Hs. pose proof (sliceByYearRange_bounds _ _ _ _ _ Hs) as [B1 B2].
  pose proof (proj1 (sliceByYearRange_Some _ _ _ _ _) Hs)
    as (Hi & Hj & Ni & Nj & _).
  pose proof (proj2 (indexOf_position yearsAll fromYear fromIdx)
                (conj Hi Ni)) as (_ & (x & Hx & Ex) & _).
  pose proof (proj2 (indexOf_position yearsAll toYear toIdx)
                (conj Hj Nj)) as (_ & (y & Hy & Ey) & _).
  assert (Hnth : forall (A : Type) (arr : list A) k,
             (Z.of_nat k <= toIdx - fromIdx)%Z ->
             nth_error (slice arr fromIdx (toIdx + 1)) k
             = nth_error arr (Z.to_nat fromIdx + k)).
  { intros A arr k Hk. rewrite nth_error_slice by lia.
    destruct (Z.ltb_spec (Z.of_nat k) (toIdx + 1 - fromIdx));
      [reflexivity | lia]. }
  eexists. split; [apply applyRange_valid; exact Hs |].
  cbn [chartsFor lineLabels lineDatasets].
  split; [intros k Hk; apply Hnth; exact Hk |]. split; [| split].
  - unfold lineFiltered. rewrite map_map.
    induction lineDatasetsAll as [| ds rest IH]; cbn [map]; constructor.
    + cbn [lineDataset l_label l_data label data].
      split; [reflexivity | intros k Hk; apply Hnth; exact Hk].
    + exact IH.
  - exists x. rewrite Hnth by lia. rewrite Nat.add_0_r. auto.
  - exists y. rewrite Hnth by lia.
    replace (Z.to_nat fromIdx + Z.to_nat (toIdx - fromIdx))%nat
      with (Z.to_nat toIdx) by lia.
    auto.
Qed.

(** X8 on a page with three years and two groups, for 2021 to 2022. *)
Lemma applyRange_alignment_witness :
  exists c',
    applyRange (fun x => x) [2020; 2021; 2022]
      [{| label := "NUS"; data := [VNumber 90; VNumber 92; VNumber 94] |};
       {| label := "NTU"; data := [VNumber 80; VNull; VNumber 85] |}]
      {| barLabels := []; barData := []; barUpdates := 0;
         scatterData := []; scatterUpdates := 0;
         lineLabels := []; lineDatasets := []; lineUpdates := 0 |}
      2021 2022
    = Normal c'
    /\ (forall k, (Z.of_nat k <= 2 - 1)%Z ->
                  nth_error (lineLabels c') k
                  = nth_error [2020; 2021; 2022] (Z.to_nat 1 + k))
    /\ Forall2 (fun ds l =>
                  l_label l = label ds
                  /\ forall k, (Z.of_nat k <= 2 - 1)%Z ->
                               nth_error (l_data l) k
                               = nth_error (data ds) (Z.to_nat 1 + k))
               [{| label := "NUS";
                   data := [VNumber 90; VNumber 92; VNumber 94] |};
                {| label := "NTU"; data := [VNumber 80; VNull; VNumber 85] |}]
               (lineDatasets c')
    /\ (exists x, nth_error (lineLabels c') 0 = Some x /\ (x =? 2021) = true)
    /\ (exists x, nth_error (lineLabels c') (Z.to_nat (2 - 1)) = Some x
                  /\ (x =? 2022) = true).
Proof.
  apply (applyRange_alignment (fun x => x) [2020; 2021; 2022] _ _
           2021 2022 1%Z 2%Z).
  vm_compute. reflexivity.
Defined.

Lemma lineFiltered_all (yearsAll : list float) (lineDatasetsAll : list Dataset) :
  Forall (fun ds => (length (data ds) <= length yearsAll)%nat)
         lineDatasetsAll ->
  lineFiltered lineDatasetsAll 0 (Z.of_nat (length yearsAll) - 1)
  = lineDatasetsAll.
Proof.
  intros H. unfold lineFiltered.
  induction H as [| ds rest Hds _ IH]; [reflexivity |].
  cbn [map]. rewrite IH. f_equal.
  rewrite slice_all by lia. destruct ds; reflexivity.
Qed.

(** X9. With years that are unique, [applyRange] from the first year to the
    last year of [yearsAll] (the range the reset button selects) shows the
    full data: when no series is longer than the years, the line chart
    has all years and every series as given, and the bar and scatter
    charts show the statistics of the full series. *)
Theorem applyRange_full_range (round3 : float -> float)
    (yearsAll : list float) (lineDatasetsAll : list Dataset) (c : Charts)
    (firstYear lastYear : float) :
  unique_years yearsAll ->
  nth_error yearsAll 0 = Some firstYear ->
  nth_error yearsAll (length yearsAll - 1) = Some lastYear ->
  Forall (fun ds => (length (data ds) <= length yearsAll)%nat)
         lineDatasetsAll ->
  let full := computeStabilityFromLineDatasets yearsAll lineDatasetsAll in
  exists c',
    applyRange round3 yearsAll lineDatasetsAll c firstYear lastYear
    = Normal c'
    /\ lineLabels c' = yearsAll
    /\ lineDatasets c' = map lineDataset lineDatasetsAll
    /\ barLabels c' = map r_group (ranked full)
    /\ barData c' = map (fun r => round3 (Spec.stability_of r)) (ranked full)
    /\ scatterData c'
       = map (fun r => {| p_label := r_group r;
                          p_x := round3 (to_number (r_mean r));
                          p_y := round3 (to_number (r_std r)) |})
             (filter hasMeanAndStd (stats full)).
Proof.
  intros [Hnan Hdist] Hfirst Hlast Hlen full.
  assert (Hne : (0 < length yearsAll)%nat).
  { destruct yearsAll; [discriminate Hfirst | cbn; lia]. }
  assert (Hself : forall n y, nth_error yearsAll n = Some y -> (y =? y) = true).
  { intros n y Hy. rewrite Forall_forall in Hnan.
    specialize (Hnan y (nth_error_In _ _ Hy)).
    unfold isNaN, is_nan in Hnan. apply negb_false_iff in Hnan. exact Hnan. }
  assert (Hpos : forall n y, nth_error yearsAll n = Some y ->
                             Spec.position yearsAll y (Z.of_nat n)).
  { intros n y Hy. unfold Spec.position. rewrite Nat2Z.id.
    split; [lia |]. split; [exists y; split; [exact Hy | eauto] |].
    intros j x Hj Hx. destruct (x =? y) eqn:E; [| reflexivity].
    pose proof (Hdist j n x y Hx Hy E). lia. }
  assert (Hs : sliceByYearRange yearsAll firstYear lastYear
               = Some (0%Z, (Z.of_nat (length yearsAll) - 1)%Z)).
  { pose proof (proj1 (indexOf_position _ _ _) (Hpos 0%nat _ Hfirst))
      as [H0 _].
    pose proof (proj1 (indexOf_position _ _ _) (Hpos _ _ Hlast)) as [H1 _].
    apply sliceByYearRange_Some. rewrite H0, H1.
    repeat split; lia. }
  eexists. split; [apply applyRange_valid; exact Hs |].
  cbn [chartsFor lineLabels lineDatasets barLabels barData scatterData].
  rewrite (lineFiltered_all yearsAll lineDatasetsAll Hlen).
  rewrite slice_all by lia.
  repeat split; reflexivity.
Qed.

(** X9 on a page with three years and one group. *)
Lemma applyRange_full_range_witness :
  exists c',
    applyRange (fun x => x) [2020; 2021; 2022]
      [{| label := "NUS"; data := [VNumber 90; VNumber 92; VNumber 94] |}]
      {| barLabels := []; barData := []; barUpdates := 0;
         scatterData := []; scatterUpdates := 0;
         lineLabels := []; lineDatasets := []; lineUpdates := 0 |}
      2020 2022
    = Normal c'
    /\ lineLabels c' = [2020; 2021; 2022]
    /\ lineDatasets c'
       = map lineDataset
           [{| label := "NUS"; data := [VNumber 90; VNumber 92; VNumber 94] |}]
    /\ barLabels c' = ["NUS"%string]
    /\ barData c' = [46]
    /\ scatterData c' = [{| p_label := "NUS"; p_x := 92; p_y := 2 |}].
Proof.
  apply (applyRange_full_range (fun x => x) [2020; 2021; 2022]
           [{| label := "NUS"; data := [VNumber 90; VNumber 92; VNumber 94] |}]
           _ 2020 2022).
  - split; [repeat constructor |].
    intros [| [| [| i]]] [| [| [| j]]] x y Hx Hy E;
      cbn [nth_error] in Hx, Hy; try reflexivity;
      try (destruct i; discriminate Hx); try (destruct j; discriminate Hy);
      inversion Hx; inversion Hy; subst x y; vm_compute in E; discriminate E.
  - reflexivity.
  - reflexivity.
  - repeat constructor.
Defined.

(** X10. The views that [applyRange] leaves for a valid range depend on the
    range alone, not on what the charts showed before: after any earlier
    selection, valid or not, a valid range gives the views it gives on any
    other charts; and an invalid range after it changes nothing. *)
Theorem applyRange_last_valid_range_wins (round3 : float -> float)
    (yearsAll : list float) (lineDatasetsAll : list Dataset)
    (c1 c2 : Charts) (fromA toA fromB toB fromC toC : float) :
  sliceByYearRange yearsAll fromB toB <> None ->
  sliceByYearRange yearsAll fromC toC = None ->
  exists cA cB cB' cC,
    applyRange round3 yearsAll lineDatasetsAll c1 fromA toA = Normal cA
    /\ applyRange round3 yearsAll lineDatasetsAll cA fromB toB = Normal cB
    /\ applyRange round3 yearsAll lineDatasetsAll c2 fromB toB = Normal cB'
    /\ views cB = views cB'
    /\ applyRange round3 yearsAll lineDatasetsAll cB fromC toC = Normal cC
    /\ cC = cB.
Proof.
  intros HB HC.
  destruct (sliceByYearRange yearsAll fromB toB) as [[i j] |] eqn:Hs;
    [clear HB | contradiction].
  assert (HA : exists cA,
             applyRange round3 yearsAll lineDatasetsAll c1 fromA toA
             = Normal cA).
  { destruct (sliceByYearRange yearsAll fromA toA) as [[a b] |] eqn:Ha.
    - eexists. apply applyRange_valid. exact Ha.
    - exists c1. unfold applyRange. rewrite Ha. reflexivity. }
  destruct HA as [cA HA].
  exists cA, (chartsFor round3 yearsAll lineDatasetsAll cA i j),
         (chartsFor round3 yearsAll lineDatasetsAll c2 i j),
         (chartsFor round3 yearsAll lineDatasetsAll cA i j).
  split; [exact HA |].
  split; [apply applyRange_valid; exact Hs |].
  split; [apply applyRange_valid; exact Hs |].
  split; [reflexivity |].
  split; [unfold applyRange; rewrite HC |]; reflexivity.
Qed.

(** X10 on a page with three years: a range, then a narrower one, then one
    with a year that is not there. *)
Lemma applyRange_last_valid_range_wins_witness :
  let c := {| barLabels := []; barData := []; barUpdates := 0;
              scatterData := []; scatterUpdates := 0;
              lineLabels := []; lineDatasets := []; lineUpdates := 0 |} in
  let page := [{| label := "NUS";
                  data := [VNumber 90; VNumber 92; VNumber 94] |}] in
  exists cA cB cB' cC,
    applyRange (fun x => x) [2020; 2021; 2022] page c 2020 2022 = Normal cA
    /\ applyRange (fun x => x) [2020; 2021; 2022] page cA 2021 2022 = Normal cB
    /\ applyRange (fun x => x) [2020; 2021; 2022] page c 2021 2022 = Normal cB'
    /\ views cB = views cB'
    /\ applyRange (fun x => x) [2020; 2021; 2022] page cB 2019 2021 = Normal cC
    /\ cC = cB.
Proof.
  cbn zeta.
  apply (applyRange_last_valid_range_wins (fun x => x) [2020; 2021; 2022]).
  - vm_compute. discriminate.
  - vm_compute. reflexivity.
Defined.

(** ** [average] *)

Lemma sum_to_number_Some (xs : list float) :
  forall acc,
    fold_left (fun a b => a + to_number b) (map Some xs) acc
    = fold_left (fun a b => a + b) xs acc.
Proof.
  induction xs as [| x rest IH]; intros acc; [reflexivity |].
  cbn [map fold_left to_number]. apply IH.
Qed.

(** X11. On a non-empty array of numbers without NaN, [average] is the
    value of [mean]. *)
Theorem average_is_mean (xs : list float) :
  xs <> [] -> Forall (fun x => isNaN x = false) xs ->
  mean (map VNumber xs) = Some (average (map Some xs)).
Proof.
  intros Hne Hxs. unfold mean, average.
  rewrite (valid_numbers_map_VNumber xs Hxs), sum_to_number_Some, length_map.
  destruct xs as [| x rest]; [contradiction | reflexivity].
Qed.

(** X11 for the values 80 and 85. *)
Lemma average_is_mean_witness :
  mean (map VNumber [80; 85]) = Some (average (map Some [80; 85])).
Proof.
  apply average_is_mean; [discriminate | repeat constructor].
Defined.

Lemma sum_nan_acc (arr : list (option float)) :
  forall acc, is_nan acc = true ->
              is_nan (fold_left (fun a b => a + to_number b) arr acc) = true.
Proof.
  induction arr as [| v rest IH]; intros acc H; cbn [fold_left]; [exact H |].
  apply IH, add_nan_l, H.
Qed.

Lemma sum_nan_entry (arr : list (option float)) (x : float) :
  In (Some x) arr -> is_nan x = true ->
  forall acc, is_nan (fold_left (fun a b => a + to_number b) arr acc) = true.
Proof.
  intros Hin Hx. induction arr as [| v rest IH]; intros acc; [contradiction |].
  cbn [fold_left]. destruct Hin as [-> | Hin].
  - apply sum_nan_acc. cbn [to_number]. apply add_nan_r, Hx.
  - apply IH, Hin.
Qed.

(** X12. [average] does not guard its input as [mean] does: the average of
    the empty array is NaN, not [null], and one NaN entry makes the
    average NaN, while [mean] leaves that entry out. *)
Theorem average_unguarded :
  is_nan (average []) = true
  /\ mean [] = None
  /\ forall (arr : list (option float)) (x : float),
       In (Some x) arr -> is_nan x = true ->
       is_nan (average arr) = true
       /\ forall before after,
            mean (before ++ VNumber x :: after) = mean (before ++ after).
Proof.
  split; [vm_compute; reflexivity |]. split; [reflexivity |].
  intros arr x Hin Hx. split.
  - unfold average. apply div_nan_l, (sum_nan_entry arr x Hin Hx).
  - intros before after.
    change (VNumber x :: after) with ([VNumber x] ++ after).
    rewrite !mean_eq, !valid_numbers_app. cbn [valid_numbers].
    unfold isNaN. rewrite Hx. reflexivity.
Qed.

(** ** The ROI chart *)

Lemma canvasAfter_app (events more : list ChartEvent) :
  canvasAfter (events ++ more)
  = fold_left canvasStep more (canvasAfter events).
Proof. unfold canvasAfter. apply fold_left_app. Qed.

Lemma renderChart_canvas (results : list Row) (p : RoiPage) :
  canvasAfter (chartEvents p) = Some (roiChart p) ->
  canvasAfter (chartEvents (renderChart results p))
  = Some (roiChart (renderChart results p)).
Proof.
  intros H. unfold renderChart. cbn [chartEvents roiChart].
  rewrite canvasAfter_app. destruct (roiChart p) as [old |].
  - rewrite canvasAfter_app, H. cbn [fold_left canvasStep].
    rewrite Nat.eqb_refl. reflexivity.
  - rewrite H. reflexivity.
Qed.

Lemma renderChart_calls_canvas (calls : list (list Row)) :
  forall p,
    canvasAfter (chartEvents p) = Some (roiChart p) ->
    canvasAfter (chartEvents (fold_left (fun q r => renderChart r q) calls p))
    = Some (roiChart (fold_left (fun q r => renderChart r q) calls p)).
Proof.
  induction calls as [| r rest IH]; intros p H; cbn [fold_left]; [exact H |].
  apply IH, renderChart_canvas, H.
Qed.

(** X13. Whatever results [renderChart] is called with, and however often,
    starting from [roiChart = null]: every chart is made on a free canvas,
    only the live chart is ever destroyed, and the one chart left live is
    the chart held in [roiChart]; after at least one call it shows the
    universities and ROI scores of the last results, in their order. *)
Theorem renderChart_one_live_chart (calls : list (list Row)) :
  let p := fold_left (fun q r => renderChart r q) calls startPage in
  canvasAfter (chartEvents p) = Some (roiChart p)
  /\ chartsMade p = length calls
  /\ forall earlier results,
       calls = earlier ++ [results] ->
       exists id before,
         roiChart p = Some id
         /\ chartEvents p
            = before ++ [NewChart id (map university results)
                                  (map roi_score results)].
Proof.
  cbn zeta. split; [apply renderChart_calls_canvas; reflexivity |].
  split.
  - assert (H : forall p,
               chartsMade (fold_left (fun q r => renderChart r q) calls p)
               = (chartsMade p + length calls)%nat).
    { induction calls as [| r rest IH]; intros p; cbn [fold_left length];
        [lia |]. rewrite IH. cbn [renderChart chartsMade]. lia. }
    rewrite H. reflexivity.
  - intros earlier results ->. rewrite fold_left_app. cbn [fold_left].
    unfold renderChart at 1 3. cbn [roiChart chartEvents].
    eexists. eexists. split; reflexivity.
Qed.

(** ** The ROI request *)





